(** * The GitHub auto-deployer (auto-deployer/index.js)

    A shallow embedding of the webhook handler [githubAutoDeployer] and of the
    functions it is built from.  JavaScript values are an inductive type, the
    module-level state of the process ([client], [config.currentDeployments],
    the local files) is a record, and the event loop is a transition function:
    every callback that the outside world (git, zip, storage, the Cloud
    Functions API, timers) delivers is one input, and every call the program
    makes to the outside world is one entry of the trace. *)

From Stdlib Require Import Ascii String Floats.
From stdpp Require Import gmap strings list pretty.

Open Scope string_scope.
Set Warnings "-register-all".

(** ** JavaScript values *)

(** The values that JSON, the collaborators' replies and the program's own
    object literals are made of.  An object keeps its properties in insertion
    order (the order [JSON.stringify] visits them). *)
Inductive value :=
  | VUndefined
  | VNull
  | VBool (b : bool)
  | VNum (n : float)
  | VStr (s : string)
  | VArr (l : list value)
  | VObj (o : list (string * value)).

Abbreviation obj := (list (string * value)).

(** The outcome of evaluating an expression: a value, or a thrown exception. *)
Inductive completion (A : Type) :=
  | Normal (a : A)
  | Throw (e : value).
Arguments Normal {A} a.
Arguments Throw {A} e.

#[global] Instance completion_ret : MRet completion := @Normal.
#[global] Instance completion_bind : MBind completion := λ A B f c,
  match c with
  | Normal a => f a
  | Throw e => Throw e
  end.

(** [new Error(message)]: the own properties the program reads back are
    [message] and [statusCode]; [stack] is only printed. *)
Definition Error (message : string) : value :=
  VObj [("message", VStr message)].

(** A [TypeError] raised by the engine.  Its text is the engine's; the program
    only ever forwards it. *)
Definition TypeError (message : string) : value :=
  VObj [("message", VStr message); ("name", VStr "TypeError")].

Definition is_nullish (v : value) : bool :=
  match v with
  | VUndefined | VNull => true
  | _ => false
  end.

(** [if (v)], [v && ...], [v ? a : b]. *)
Definition truthy (v : value) : bool :=
  match v with
  | VUndefined | VNull => false
  | VBool b => b
  | VNum n => negb (PrimFloat.eqb n 0) && PrimFloat.eqb n n
  | VStr s => negb (s =? "")
  | VArr _ | VObj _ => true
  end.

(** [v == null]. *)
Definition loose_eq_null (v : value) : bool := is_nullish v.

(** [v === s] and [v !== s] for a string [s]. *)
Definition strict_eq_str (v : value) (s : string) : bool :=
  match v with
  | VStr t => t =? s
  | _ => false
  end.

Fixpoint own_property (k : string) (o : obj) : option value :=
  match o with
  | [] => None
  | (k', v) :: o' => if k' =? k then Some v else own_property k o'
  end.

(** [v.k] for the property names the program reads ([repository], [owner],
    [name], [errors], [reason], [done], [response], [stack], [statusCode],
    [message]): none of them is inherited by a plain object, an array or a
    primitive, so only an object's own properties can answer. *)
Definition get_prop (v : value) (k : string) : completion value :=
  match v with
  | VUndefined => Throw (TypeError ("Cannot read property '" ++ k ++ "' of undefined"))
  | VNull => Throw (TypeError ("Cannot read property '" ++ k ++ "' of null"))
  | VObj o => Normal (default VUndefined (own_property k o))
  | _ => Normal VUndefined
  end.

(** [v[0]]. *)
Definition get_first (v : value) : completion value :=
  match v with
  | VUndefined => Throw (TypeError "Cannot read property '0' of undefined")
  | VNull => Throw (TypeError "Cannot read property '0' of null")
  | VArr l => Normal (default VUndefined (head l))
  | VStr s => Normal (match s with
                      | String c _ => VStr (String c "")
                      | EmptyString => VUndefined
                      end)
  | VObj o => Normal (default VUndefined (own_property "0" o))
  | _ => Normal VUndefined
  end.

Fixpoint set_own (k : string) (x : value) (o : obj) : obj :=
  match o with
  | [] => [(k, x)]
  | (k', v) :: o' => if k' =? k then (k, x) :: o' else (k', v) :: set_own k x o'
  end.

(** [v.k = x] in strict mode.  A named property put on an array is not part of
    the array's elements (nor of its JSON form), so the array is left as it
    is. *)
Definition set_prop (v : value) (k : string) (x : value) : completion value :=
  match v with
  | VObj o => Normal (VObj (set_own k x o))
  | VArr l => Normal (VArr l)
  | VUndefined => Throw (TypeError ("Cannot set property '" ++ k ++ "' of undefined"))
  | VNull => Throw (TypeError ("Cannot set property '" ++ k ++ "' of null"))
  | _ => Throw (TypeError ("Cannot create property '" ++ k ++ "'"))
  end.

(** ** Node's [path.parse(p).base] (POSIX): the part after the last slash,
    trailing slashes dropped. *)
Definition is_slash (c : ascii) : bool := Ascii.eqb c "/".

Fixpoint drop_slashes (l : list ascii) : list ascii :=
  match l with
  | c :: l' => if is_slash c then drop_slashes l' else l
  | [] => []
  end.

Fixpoint until_slash (l : list ascii) : list ascii :=
  match l with
  | c :: l' => if is_slash c then [] else c :: until_slash l'
  | [] => []
  end.

Definition path_base (p : string) : string :=
  string_of_list_ascii
    (rev (until_slash (drop_slashes (rev (list_ascii_of_string p))))).

(** ** Library functions the program calls but does not define *)

Class Platform := {
  (** [crypto.createHmac('sha1', key).update(data).digest('hex')] *)
  hmac_sha1_hex : string → string → string;
  (** [JSON.stringify(v)]; [None] is JavaScript's [undefined], which is the
      answer for [undefined] only *)
  JSON_stringify : value → option string;
  JSON_stringify_defined : ∀ v, v ≠ VUndefined → is_Some (JSON_stringify v);
  (** [String(n)] for a number *)
  Number_toString : float → string;
  (** [path.join(a, b)] *)
  path_join : string → string → string;
  (** [randomstring.generate(len)], by the number of earlier calls; the
      string has the length asked for *)
  randomstring_generate : nat → nat → string;
  randomstring_generate_length : ∀ k len, String.length (randomstring_generate k len) = len;
}.

Section ToString.
Context `{Platform}.

(** The string a template literal [`${v}`] puts in for [v].  An object
    converts through [Object.prototype.toString] unless it has a property
    [toString] of its own, which for data is never callable: then the
    conversion throws. *)
Fixpoint ToString (v : value) : completion string :=
  match v with
  | VUndefined => Normal "undefined"
  | VNull => Normal "null"
  | VBool true => Normal "true"
  | VBool false => Normal "false"
  | VNum n => Normal (Number_toString n)
  | VStr s => Normal s
  | VArr l =>
      (fix join (l : list value) : completion string :=
         match l with
         | [] => Normal ""
         | x :: rest =>
             s ← (if is_nullish x then Normal "" else ToString x);
             match rest with
             | [] => Normal s
             | _ => t ← join rest; Normal (s ++ "," ++ t)
             end
         end) l
  | VObj o =>
      match own_property "toString" o with
      | Some _ => Throw (TypeError "Cannot convert object to primitive value")
      | None => Normal "[object Object]"
      end
  end.

End ToString.

(** ** Configuration, requests and the state of the process *)

(** One entry of [config.deployments]. *)
Module Deployment.
Record t := {
  repository : string;
  path : string;
  functionName : string;
}.

(** The entry as the object that [result.deployment] is set to. *)
Definition to_value (d : t) : value :=
  VObj [("repository", VStr (repository d));
        ("path", VStr (path d));
        ("functionName", VStr (functionName d))].
End Deployment.

(** [config2.json], read once when the module is loaded. *)
Module Config.
Record t := {
  stageBucket : string;
  location : string;
  secretToken : string;
  deployments : list Deployment.t;
}.
End Config.

(** The part of [req] the handler reads. *)
Record Request := {
  body : value;
  headers : gmap string string;
}.

(** What was sent through [res]: [res.status(s).send(b).end()].  [res] takes
    whatever status and body it is given. *)
Inductive response :=
  | Response (status : value) (sent : value).

(** A client object made by [google.cloudfunctions], named by its rank among
    the clients made so far: two handles are the same object exactly when they
    are the same number. *)
Definition handle := nat.

(** The module-level state: [let client], the field
    [config.currentDeployments] that every request overwrites, the files of
    the local disk, and how many clients and random strings were made. *)
Record Process := {
  client : option handle;
  currentDeployments : list Deployment.t;
  files : gset string;
  clients_made : nat;
  random_calls : nat;
}.

Definition set_client (c : handle) (σ : Process) : Process :=
  {| client := Some c;
     currentDeployments := currentDeployments σ;
     files := files σ;
     clients_made := S (clients_made σ);
     random_calls := random_calls σ |}.

Definition set_currentDeployments (ds : list Deployment.t) (σ : Process) : Process :=
  {| client := client σ;
     currentDeployments := ds;
     files := files σ;
     clients_made := clients_made σ;
     random_calls := random_calls σ |}.

Definition set_files (fs : gset string) (σ : Process) : Process :=
  {| client := client σ;
     currentDeployments := currentDeployments σ;
     files := fs;
     clients_made := clients_made σ;
     random_calls := random_calls σ |}.

Definition next_random (σ : Process) : Process :=
  {| client := client σ;
     currentDeployments := currentDeployments σ;
     files := files σ;
     clients_made := clients_made σ;
     random_calls := S (random_calls σ) |}.

(** A freshly started process. *)
Definition boot (fs : gset string) : Process :=
  {| client := None;
     currentDeployments := [];
     files := fs;
     clients_made := 0;
     random_calls := 0 |}.

(** How a promise settles. *)
Inductive settlement (A : Type) :=
  | Fulfilled (a : A)
  | Rejected (e : value).
Arguments Fulfilled {A} a.
Arguments Rejected {A} e.

(** The body of the function resource that [deployFunction] builds; its
    [httpsTrigger] is always the empty object. *)
Record Resource := {
  sourceArchiveUrl : string;
  name : string;
}.

(** The object literal of lines 175-179. *)
Definition Resource_value (resource : Resource) : value :=
  VObj [("sourceArchiveUrl", VStr (sourceArchiveUrl resource));
        ("name", VStr (name resource));
        ("httpsTrigger", VObj [])].

(** The calls the program makes to its collaborators, in the order it makes
    them. *)
Inductive call :=
  | downloadGitRepo (repository destination : string)
  | zipFolder (directory archive : string)
  | bucket_upload (archive : string)
  | getApplicationDefault
  | functions_create (gcf : handle) (resource : Resource) (location : string)
  | functions_update (gcf : handle) (resource : Resource) (name : string)
  | operations_get (gcf : handle) (name : value)
  | setTimeout (ms : nat)
  | uncaught (e : value).

(** ** The functions of index.js *)

(** [fs.unlinkSync(path)]: removes the file; throws when [path] is not a path
    or names no file. *)
Definition unlinkSync (path : value) (fs : gset string) : completion (gset string) :=
  match path with
  | VStr p =>
      if bool_decide (p ∈ fs) then Normal (fs ∖ {[p]})
      else Throw (Error ("ENOENT: no such file or directory, unlink '" ++ p ++ "'"))
  | _ => Throw (TypeError "path must be a string or Buffer")
  end.

(** The inner [function cleanup (archive)] of [uploadArchive] (lines 81-88).
    Its parameter hides the [archive] of the enclosing function. *)
Definition cleanup (archive : value) (fs : gset string) : gset string :=
  match unlinkSync archive fs with
  | Normal fs' => fs'
  | Throw _ => fs
  end.

(** The [.then] handler of [uploadArchive] (lines 70-74): [cleanup()] is called
    without an argument, so its parameter is [undefined]. *)
Definition uploadArchive_then (archive : string) (σ : Process) : Process * settlement string :=
  (set_files (cleanup VUndefined (files σ)) σ, Fulfilled archive).

(** The [.catch] handler of [uploadArchive] (lines 75-79). *)
Definition uploadArchive_catch (archive : string) (err : value) (σ : Process)
  : Process * settlement string :=
  (set_files (cleanup VUndefined (files σ)) σ, Rejected err).

(** [uploadArchive] once [bucket.upload(archive)] has settled: fulfilled
    ([None]) or rejected with [err], whatever value that is. *)
Definition uploadArchive (archive : string) (upload : option value) (σ : Process)
  : Process * settlement string :=
  match upload with
  | None => uploadArchive_then archive σ
  | Some err => uploadArchive_catch archive err σ
  end.

(** The callback of [downloadRepo] (lines 27-35). *)
Definition downloadRepo_cb (destination : string) (err : value) : settlement string :=
  if truthy err then Rejected err else Fulfilled destination.

(** The callback of [zipDir] (lines 49-57). *)
Definition zipDir_cb (archive : string) (err : value) : settlement string :=
  if truthy err then Rejected err else Fulfilled archive.

(** The callback of [getClient] (lines 99-112).  A reply without error comes
    with working credentials, from which [google.cloudfunctions] makes a new
    client object. *)
Definition getClient_cb (err : value) (σ : Process) : Process * settlement handle :=
  if truthy err then (σ, Rejected err)
  else (set_client (clients_made σ) σ, Fulfilled (clients_made σ)).

(** What a callback of the Cloud Functions API does with the promise it
    belongs to: settle it, make a further call and wait, throw (the promise
    then stays pending), or nothing at all. *)
Inductive reaction (A B : Type) :=
  | Settle (s : settlement A)
  | Continue (next : B)
  | Throws (e : value)
  | Nothing.
Arguments Settle {A B} s.
Arguments Continue {A B} next.
Arguments Throws {A B} e.
Arguments Nothing {A B}.

(** The condition on line 138:
    [err && err.errors && err.errors[0] && err.errors[0].reason === 'alreadyExists']. *)
Definition alreadyExists (err : value) : completion bool :=
  if truthy err then
    errors ← get_prop err "errors";
    if truthy errors then
      first ← get_first errors;
      if truthy first then
        reason ← get_prop first "reason";
        Normal (strict_eq_str reason "alreadyExists")
      else Normal false
    else Normal false
  else Normal false.

(** The callback of [functions.create] (lines 137-156); [Continue] stands for
    the call of [functions.update] with [{ resource, name: resource.name }]. *)
Definition create_cb (resource : Resource) (err operation : value)
  : reaction value (Resource * string) :=
  match alreadyExists err with
  | Throw e => Throws e
  | Normal true => Continue (resource, name resource)
  | Normal false =>
      if truthy err then Settle (Rejected err)
      else if loose_eq_null err then Settle (Fulfilled operation)
      else Nothing
  end.

(** The callback of [functions.update] (lines 140-148). *)
Definition update_cb (err operation : value) : settlement value :=
  if truthy err then Rejected err else Fulfilled operation.

(** ** One request in flight *)

(** A member of a [Promise.all]: still waiting for a callback, fulfilled,
    rejected, or stalled (its callback threw, or called neither [resolve] nor
    [reject]: it never settles).  [P] says what a pending member waits for. *)
Inductive slot (P R : Type) :=
  | Pending (p : P)
  | Resolved (r : R)
  | Failed (e : value)
  | Stalled.
Arguments Pending {P R} p.
Arguments Resolved {P R} r.
Arguments Failed {P R} e.
Arguments Stalled {P R}.

(** Where one [deployFunction] is waiting. *)
Inductive deploying :=
  | AwaitClient (archive name : string)
  | AwaitCreate (gcf : handle) (resource : Resource)
  | AwaitUpdate (gcf : handle) (resource : Resource)
  | AwaitOperation (gcf : handle) (operation : value)
  | AwaitTimeout (gcf : handle) (operation : value).

(** How far the promise chain of [githubAutoDeployer] has come: the handler
    threw before it built the chain (lines 236-238); the chain was rejected
    before any [Promise.all] was made; the download is awaited; or the
    archives, the uploads or the deployments are. *)
Inductive stage :=
  | Threw (e : value)
  | Closed
  | Downloading (destination : string)
  | Zipping (slots : list (slot string string))
  | Uploading (slots : list (slot string string))
  | Deploying (slots : list (slot deploying value)).

(** Which handler has ended the promise chain of the request: none yet, the
    last [.then] (lines 266-276), or the [.catch] (lines 277-283) with the
    error it was given. *)
Inductive chain :=
  | Awaiting
  | Succeeded
  | Caught (e : value).

(** A request: its stage, the end of its chain, and what went out through its
    [res]. *)
Record Req := {
  at_stage : stage;
  ended : chain;
  res : list response;
}.

(** ** The callbacks the outside world delivers *)

Inductive deploy_callback :=
  | authenticated (err : value)
  | created (err operation : value)
  | updated (err operation : value)
  | got (err _operation : value)
  | timed_out.

(** [i] is the position of the deployment in its [Promise.all].  An [err] is
    what the collaborator passes to the callback; the promise of
    [bucket.upload] is fulfilled ([None]) or rejected with a value. *)
Inductive callback :=
  | downloaded (err : value)
  | zipped (i : nat) (err : value)
  | uploaded (i : nat) (err : option value)
  | deploy_event (i : nat) (ev : deploy_callback).

(** ** The process as a whole *)

(** The module state, the requests received so far (a request is known by its
    rank of arrival) and the calls made so far. *)
Record State := {
  process : Process;
  requests : list Req;
  trace : list call;
}.

Inductive input :=
  | Incoming (req : Request)
  | Callback (r : nat) (cb : callback).

Section Deployer.
Context `{Platform}.
Variable config : Config.t.
(** [process.env.GCLOUD_PROJECT]; an unset variable reads as [undefined]. *)
Variable GCLOUD_PROJECT : option string.

(** [`${PROJECT_ID}`]. *)
Definition PROJECT_ID : string := default "undefined" GCLOUD_PROJECT.

(** [pollOperation] up to its call of [gcf.operations.get] (lines 117-119):
    reading [operation.name] inside the promise's executor rejects the promise
    when it throws. *)
Definition pollOperation (operation : value) : settlement value :=
  match get_prop operation "name" with
  | Normal name => Fulfilled name
  | Throw e => Rejected e
  end.

(** The callback of [gcf.operations.get] (lines 120-131); [Continue] stands
    for [setTimeout(..., 500)].  The log line on 124 reads
    [_operation.response.name] and converts it to a string. *)
Definition pollOperation_cb (err _operation : value) : reaction value nat :=
  if truthy err then Settle (Rejected err)
  else
    match get_prop _operation "done" with
    | Throw e => Throws e
    | Normal done =>
        if truthy done then
          match (response ← get_prop _operation "response";
                 name ← get_prop response "name";
                 _ ← ToString name;
                 Normal response) with
          | Throw e => Throws e
          | Normal response => Settle (Fulfilled response)
          end
        else Continue 500
    end.

(** Lines 174-179 of [deployFunction]: the location and the resource. *)
Definition deployFunction_location : string :=
  "projects/" ++ PROJECT_ID ++ "/locations/" ++ Config.location config.

Definition deployFunction_resource (archive name : string) : Resource :=
  {| sourceArchiveUrl := "gs://" ++ Config.stageBucket config ++ "/" ++ path_base archive;
     name := deployFunction_location ++ "/functions/" ++ name |}.

(** [getCurrentDeployments] (lines 191-202). *)
Definition getCurrentDeployments (repository : string) (σ : Process)
  : Process * settlement unit :=
  let current :=
    filter (λ deployment, Deployment.repository deployment = repository)
           (Config.deployments config) in
  let σ' := set_currentDeployments current σ in
  if Nat.eqb (length current) 0
  then (σ', Rejected (Error ("No matching deployments for " ++ repository ++ ".")))
  else (σ', Fulfilled ()).

(** [req.headers[k]] as a value. *)
Definition header (req : Request) (k : string) : value :=
  match headers req !! k with
  | Some s => VStr s
  | None => VUndefined
  end.

(** The error made on lines 219-220. *)
Definition Unauthorized : value :=
  VObj (set_own "statusCode" (VNum 403) [("message", VStr "Unauthorized")]).

(** [validateRequest] (lines 210-226).  [update] throws when it is not given a
    string. *)
Definition validateRequest (req : Request) : settlement unit :=
  match JSON_stringify (body req) with
  | None => Rejected (TypeError "Data must be a string or a buffer")
  | Some data =>
      let digest := hmac_sha1_hex (Config.secretToken config) data in
      if negb (strict_eq_str (header req "x-hub-signature") ("sha1=" ++ digest))
      then Rejected Unauthorized
      else Fulfilled ()
  end.

(** The request [q], moved to stage [s]. *)
Definition at_ (q : Req) (s : stage) : Req :=
  {| at_stage := s; ended := ended q; res := res q |}.

(** The [.catch] handler (lines 277-283). *)
Definition catch_handler (err : value) : completion response :=
  _ ← get_prop err "stack";
  statusCode ← get_prop err "statusCode";
  message ← get_prop err "message";
  Normal (Response (if truthy statusCode then statusCode else VNum 500) message).

(** The chain is rejected with [err]: unless it has already ended, the
    [.catch] handler runs. *)
Definition reject_chain (q : Req) (err : value) : Req * list call :=
  match ended q with
  | Awaiting =>
      match catch_handler err with
      | Normal r =>
          ({| at_stage := at_stage q; ended := Caught err; res := (res q ++ [r])%list |}, [])
      | Throw e =>
          ({| at_stage := at_stage q; ended := Caught err; res := res q |}, [uncaught e])
      end
  | _ => (q, [])
  end.

(** The values of a [Promise.all] whose members have all been fulfilled. *)
Fixpoint all_resolved {P R} (slots : list (slot P R)) : option (list R) :=
  match slots with
  | [] => Some []
  | Resolved r :: slots' => rs ← all_resolved slots'; Some (r :: rs)
  | _ => None
  end.

(** [results.forEach((result, i) => { result.deployment = config.currentDeployments[i] })]
    (lines 267-269), from index [i] on. *)
Fixpoint annotate (current : list Deployment.t) (i : nat) (results : list value)
  : completion (list value) :=
  match results with
  | [] => Normal []
  | result :: results' =>
      result' ← set_prop result "deployment"
                 (match current !! i with
                  | Some d => Deployment.to_value d
                  | None => VUndefined
                  end);
      rest ← annotate current (S i) results';
      Normal (result' :: rest)
  end.

(** The last [.then] handler (lines 266-276). *)
Definition then_respond (σ : Process) (q : Req) (results : list value) : Req * list call :=
  match annotate (currentDeployments σ) 0 results with
  | Normal results' =>
      ({| at_stage := at_stage q; ended := Succeeded;
          res := (res q ++ [Response (VNum 200) (VArr results')])%list |}, [])
  | Throw e => reject_chain q e
  end.

(** [deployFunction(archive, name)] up to its first wait (lines 169-181): with
    a cached client the resource is built and [functions.create] called, else
    [getClient] asks for the credentials. *)
Definition deployFunction (σ : Process) (archive name : string)
  : slot deploying value * list call :=
  match client σ with
  | Some gcf =>
      let resource := deployFunction_resource archive name in
      (Pending (AwaitCreate gcf resource),
       [functions_create gcf resource deployFunction_location])
  | None => (Pending (AwaitClient archive name), [getApplicationDefault])
  end.

(** [archives.map((archive, i) => deployFunction(archive, config.currentDeployments[i].functionName))]
    (lines 262-264), from index [i] on.  When [currentDeployments] has no
    entry [i] the map throws; the deployments started before it keep
    running. *)
Fixpoint deployFunctions (σ : Process) (i : nat) (archives : list string)
  : list (slot deploying value) * list call * option value :=
  match archives with
  | [] => ([], [], None)
  | archive :: archives' =>
      match currentDeployments σ !! i with
      | None => ([], [], Some (TypeError "Cannot read property 'functionName' of undefined"))
      | Some d =>
          let '(s, c) := deployFunction σ archive (Deployment.functionName d) in
          let '(slots, calls, thrown) := deployFunctions σ (S i) archives' in
          (s :: slots, (c ++ calls)%list, thrown)
      end
  end.

(** The third [.then] handler (lines 260-265) and what follows it when there
    is nothing to wait for. *)
Definition then_deploy (σ : Process) (q : Req) (archives : list string) : Req * list call :=
  let '(slots, calls, thrown) := deployFunctions σ 0 archives in
  let q1 := at_ q (Deploying slots) in
  match thrown with
  | Some e => let '(q2, calls2) := reject_chain q1 e in (q2, (calls ++ calls2)%list)
  | None =>
      match all_resolved slots with
      | Some results => let '(q2, calls2) := then_respond σ q1 results in (q2, (calls ++ calls2)%list)
      | None => (q1, calls)
      end
  end.

(** The second [.then] handler (lines 254-259): every archive is handed to
    [uploadArchive], which starts by calling [bucket.upload]. *)
Definition then_upload (σ : Process) (q : Req) (archives : list string) : Req * list call :=
  let q1 := at_ q (Uploading (Pending <$> archives)) in
  match archives with
  | [] => then_deploy σ q1 []
  | _ => (q1, bucket_upload <$> archives)
  end.

(** Line 47 of [zipDir], for the call of [randomstring.generate] of rank [k]. *)
Definition zipDir_archive (k : nat) : string :=
  "/tmp/" ++ randomstring_generate k 13 ++ ".zip".

(** [zipDir] up to its call of [zipFolder] (lines 46-49), for every current
    deployment in turn (lines 250-251). *)
Fixpoint zipDirs (directory : string) (current : list Deployment.t) (σ : Process)
  : Process * list (slot string string) * list call :=
  match current with
  | [] => (σ, [], [])
  | deployment :: current' =>
      let archive := zipDir_archive (random_calls σ) in
      let '(σ', slots, calls) := zipDirs directory current' (next_random σ) in
      (σ', Pending archive :: slots,
       zipFolder (path_join directory (Deployment.path deployment)) archive :: calls)
  end.

(** The first [.then] handler after the download (lines 247-253). *)
Definition then_zip (σ : Process) (q : Req) (directory : string) : Process * Req * list call :=
  let '(σ', slots, calls) := zipDirs directory (currentDeployments σ) σ in
  let q1 := at_ q (Zipping slots) in
  match slots with
  | [] => let '(q2, calls2) := then_upload σ' q1 [] in (σ', q2, (calls ++ calls2)%list)
  | _ => (σ', q1, calls)
  end.

(** Lines 236-238: [user], [repo] and [repository]; the result is
    [repository] together with [repo]. *)
Definition repository_of (req : Request) : completion (string * value) :=
  repository ← get_prop (body req) "repository";
  owner ← get_prop repository "owner";
  user ← get_prop owner "name";
  repository' ← get_prop (body req) "repository";
  repo ← get_prop repository' "name";
  user_text ← ToString user;
  repo_text ← ToString repo;
  Normal (user_text ++ "/" ++ repo_text, repo).

(** [githubAutoDeployer] (lines 235-283) from the arrival of the request to
    its first wait: the three reads of the body and the template literal run
    in the handler itself, the validation, the matching and the call of
    [downloadRepo] in the promise jobs that follow it at once. *)
Definition githubAutoDeployer (req : Request) (σ : Process) : Process * Req * list call :=
  match repository_of req with
  | Throw e => (σ, {| at_stage := Threw e; ended := Awaiting; res := [] |}, [])
  | Normal (repository, repo) =>
      let q := {| at_stage := Closed; ended := Awaiting; res := [] |} in
      match validateRequest req with
      | Rejected e => let '(q', calls) := reject_chain q e in (σ, q', calls)
      | Fulfilled _ =>
          let '(σ', matched) := getCurrentDeployments repository σ in
          match matched with
          | Rejected e => let '(q', calls) := reject_chain q e in (σ', q', calls)
          | Fulfilled _ =>
              match ToString repo with
              | Throw e => let '(q', calls) := reject_chain q e in (σ', q', calls)
              | Normal repo_text =>
                  let destination := "/tmp/" ++ repo_text in
                  (σ', {| at_stage := Downloading destination; ended := Awaiting; res := [] |},
                   [downloadGitRepo repository destination])
              end
          end
      end
  end.

(** What [Promise.all] tells the chain when one of its members has moved to
    [s]: nothing while others are pending or when the chain has already
    ended, the first rejection, or all the values. *)
Definition joined {P R} (q : Req) (slots : list (slot P R)) (s : slot P R)
  : option (settlement (list R)) :=
  match ended q with
  | Awaiting =>
      match s with
      | Failed e => Some (Rejected e)
      | _ => Fulfilled <$> all_resolved slots
      end
  | _ => None
  end.

(** [.then((operation) => pollOperation(gcf, operation))] (line 183), also
    the body of the timer on lines 127-129. *)
Definition start_poll (gcf : handle) (operation : value) : slot deploying value * list call :=
  match pollOperation operation with
  | Fulfilled name => (Pending (AwaitOperation gcf operation), [operations_get gcf name])
  | Rejected e => (Failed e, [])
  end.

(** One callback of one [deployFunction]; [None] when it is not the callback
    that deployment is waiting for. *)
Definition deploy_step (σ : Process) (p : deploying) (ev : deploy_callback)
  : option (Process * slot deploying value * list call) :=
  match p, ev with
  | AwaitClient archive name, authenticated err =>
      match getClient_cb err σ with
      | (σ', Rejected e) => Some (σ', Failed e, [])
      | (σ', Fulfilled gcf) =>
          let resource := deployFunction_resource archive name in
          Some (σ', Pending (AwaitCreate gcf resource),
                [functions_create gcf resource deployFunction_location])
      end
  | AwaitCreate gcf resource, created err operation =>
      match create_cb resource err operation with
      | Settle (Rejected e) => Some (σ, Failed e, [])
      | Settle (Fulfilled operation) =>
          let '(s, calls) := start_poll gcf operation in Some (σ, s, calls)
      | Continue (resource', name) =>
          Some (σ, Pending (AwaitUpdate gcf resource), [functions_update gcf resource' name])
      | Throws e => Some (σ, Stalled, [uncaught e])
      | Nothing => Some (σ, Stalled, [])
      end
  | AwaitUpdate gcf resource, updated err operation =>
      match update_cb err operation with
      | Rejected e => Some (σ, Failed e, [])
      | Fulfilled operation =>
          let '(s, calls) := start_poll gcf operation in Some (σ, s, calls)
      end
  | AwaitOperation gcf operation, got err _operation =>
      match pollOperation_cb err _operation with
      | Settle (Rejected e) => Some (σ, Failed e, [])
      | Settle (Fulfilled response) => Some (σ, Resolved response, [])
      | Continue ms => Some (σ, Pending (AwaitTimeout gcf operation), [setTimeout ms])
      | Throws e => Some (σ, Stalled, [uncaught e])
      | Nothing => Some (σ, Stalled, [])
      end
  | AwaitTimeout gcf operation, timed_out =>
      let '(s, calls) := start_poll gcf operation in Some (σ, s, calls)
  | _, _ => None
  end.

(** A member of the [Promise.all] of the request has moved to [s], which gave
    the members [slots] (the stage [at_slots]): the chain is rejected, goes on
    with [next], or waits. *)
Definition member_moved {P R} (q : Req) (at_slots : stage) (slots : list (slot P R))
    (s : slot P R) (next : Req → list R → Req * list call) : Req * list call :=
  let q1 := at_ q at_slots in
  match joined q slots s with
  | Some (Rejected e) => reject_chain q1 e
  | Some (Fulfilled values) => next q1 values
  | None => (q1, [])
  end.

(** A settled promise as a member of a [Promise.all]. *)
Definition settled {P R} (s : settlement R) : slot P R :=
  match s with
  | Rejected e => Failed e
  | Fulfilled r => Resolved r
  end.

(** One callback of one request.  A callback nobody is waiting for does not
    happen: the state stays as it is. *)
Definition on_callback (σ : Process) (q : Req) (cb : callback) : Process * Req * list call :=
  match at_stage q, cb with
  | Downloading destination, downloaded err =>
      match downloadRepo_cb destination err with
      | Rejected e =>
          let '(q', calls) := reject_chain (at_ q Closed) e in
          (σ, q', calls)
      | Fulfilled directory => then_zip σ q directory
      end
  | Zipping slots, zipped i err =>
      match slots !! i with
      | Some (Pending archive) =>
          let s := settled (zipDir_cb archive err) in
          let slots' := <[i := s]> slots in
          let '(q', calls) := member_moved q (Zipping slots') slots' s (then_upload σ) in
          (σ, q', calls)
      | _ => (σ, q, [])
      end
  | Uploading slots, uploaded i err =>
      match slots !! i with
      | Some (Pending archive) =>
          let '(σ', settlement) := uploadArchive archive err σ in
          let s := settled settlement in
          let slots' := <[i := s]> slots in
          let '(q', calls) := member_moved q (Uploading slots') slots' s (then_deploy σ') in
          (σ', q', calls)
      | _ => (σ, q, [])
      end
  | Deploying slots, deploy_event i ev =>
      match slots !! i with
      | Some (Pending p) =>
          match deploy_step σ p ev with
          | Some (σ', s, calls) =>
              let slots' := <[i := s]> slots in
              let '(q', calls') :=
                member_moved q (Deploying slots') slots' s (then_respond σ') in
              (σ', q', (calls ++ calls')%list)
          | None => (σ, q, [])
          end
      | _ => (σ, q, [])
      end
  | _, _ => (σ, q, [])
  end.

Definition step (st : State) (x : input) : State :=
  match x with
  | Incoming req =>
      let '(σ, q, calls) := githubAutoDeployer req (process st) in
      {| process := σ; requests := requests st ++ [q]; trace := trace st ++ calls |}
  | Callback r cb =>
      match requests st !! r with
      | Some q =>
          let '(σ, q', calls) := on_callback (process st) q cb in
          {| process := σ; requests := <[r := q']> (requests st); trace := trace st ++ calls |}
      | None => st
      end
  end.

Definition run (st : State) (xs : list input) : State := fold_left step xs st.

Definition start (fs : gset string) : State :=
  {| process := boot fs; requests := []; trace := [] |}.

End Deployer.

(** ** What the specification calls the error response *)

(** The own property [k] of [e], [undefined] when there is none. *)
Definition property (e : value) (k : string) : value :=
  match e with
  | VObj o => default VUndefined (own_property k o)
  | _ => VUndefined
  end.

(** The status is the error's [statusCode] if it has a truthy one, else 500;
    the body is the error's [message]. *)
Definition error_response (e : value) : response :=
  Response (if truthy (property e "statusCode") then property e "statusCode" else VNum 500)
           (property e "message").

(** [v.k] cannot be read, or reads as [undefined] or [null]. *)
Definition missing (v : value) (k : string) : Prop :=
  ∀ x, get_prop v k = Normal x → is_nullish x = true.

(** The first entry of [err.errors] has the reason [reason]. *)
Definition first_reason (err : value) (reason : string) : Prop :=
  ∃ errors first,
    get_prop err "errors" = Normal errors ∧
    get_first errors = Normal first ∧
    get_prop first "reason" = Normal (VStr reason).

(** Some member of the [Promise.all] the request is in has been rejected. *)
Definition has_failed (q : Req) : Prop :=
  match at_stage q with
  | Zipping slots | Uploading slots => ∃ e, Failed e ∈ slots
  | Deploying slots => ∃ e, Failed e ∈ slots
  | _ => False
  end.

(** No member of the [Promise.all] the request is in has been rejected. *)
Definition none_failed (q : Req) : Prop :=
  match at_stage q with
  | Zipping slots | Uploading slots => ∀ e, Failed e ∉ slots
  | Deploying slots => ∀ e, Failed e ∉ slots
  | _ => True
  end.

(** What the end of the chain says about the response: nothing was sent
    while no handler has run (and then no member has failed); the [.catch]
    sent the error response of what it caught, or nothing when it caught
    [undefined] or [null] (it throws on reading [err.stack]); the last [.then]
    sent 200 with the annotated results of deployments that have all been
    fulfilled.  The [.catch] never runs while the download is awaited. *)
Definition consistent (q : Req) : Prop :=
  match ended q with
  | Awaiting => res q = [] ∧ none_failed q
  | Caught e =>
      res q = (if is_nullish e then [] else [error_response e]) ∧
      ∀ destination, at_stage q ≠ Downloading destination
  | Succeeded =>
      ∃ slots results current results',
        at_stage q = Deploying slots ∧
        all_resolved slots = Some results ∧
        annotate current 0 results = Normal results' ∧
        res q = [Response (VNum 200) (VArr results')]
  end.

(** Nothing the request is waiting for can still call back: no download is
    awaited and no member of the [Promise.all] it is in is pending. *)
Definition nothing_pending (q : Req) : Prop :=
  match at_stage q with
  | Threw _ | Closed => True
  | Downloading _ => False
  | Zipping slots | Uploading slots => ∀ i archive, slots !! i ≠ Some (Pending archive)
  | Deploying slots => ∀ i p, slots !! i ≠ Some (Pending p)
  end.

(** A reply of [operations.get] that reports an operation still running:
    no error, and an operation whose [done] is not truthy. *)
Definition not_done (reply : value * value) : Prop :=
  truthy reply.1 = false ∧ is_nullish reply.2 = false
  ∧ truthy (property reply.2 "done") = false.

(** Deployment [i] of request [r] gets the reply and then its timer fires. *)
Definition poll_round (r i : nat) (reply : value * value) : list input :=
  [Callback r (deploy_event i (got reply.1 reply.2));
   Callback r (deploy_event i timed_out)].

(** The call is a clone of a repository. *)
Definition is_download (c : call) : bool :=
  match c with
  | downloadGitRepo _ _ => true
  | _ => false
  end.

(** The value is an object (not an array, not a primitive). *)
Definition is_object (v : value) : bool :=
  match v with
  | VObj _ => true
  | _ => false
  end.

(** The value is a string, a number or a boolean. *)
Definition is_primitive (v : value) : bool :=
  match v with
  | VBool _ | VNum _ | VStr _ => true
  | _ => false
  end.

(** ** A platform to run the examples on

    The theorems below hold for every platform.  The examples need one to
    compute with: its digest is a stand-in for HMAC-SHA1 and its number
    printer cuts fractions off. *)
Module Demo.

Definition quote : string := String (ascii_of_nat 34) "".

Definition print_number (n : float) : string :=
  match Prim2SF n with
  | S754_zero _ => "0"
  | S754_infinity s => if s then "-Infinity" else "Infinity"
  | S754_nan => "NaN"
  | S754_finite s m e =>
      (if s then "-" else "") ++
      pretty (if (0 <=? e)%Z then Z.pos m * 2 ^ e else Z.pos m / 2 ^ (- e))%Z
  end.

Fixpoint stringify (v : value) : string :=
  match v with
  | VUndefined | VNull => "null"
  | VBool b => if b then "true" else "false"
  | VNum n => print_number n
  | VStr s => quote ++ s ++ quote
  | VArr l =>
      "[" ++ (fix items (l : list value) : string :=
                match l with
                | [] => ""
                | [x] => stringify x
                | x :: rest => stringify x ++ "," ++ items rest
                end) l ++ "]"
  | VObj o =>
      "{" ++ (fix members (o : obj) : string :=
                match o with
                | [] => ""
                | [(k, x)] => quote ++ k ++ quote ++ ":" ++ stringify x
                | (k, x) :: rest => quote ++ k ++ quote ++ ":" ++ stringify x ++ "," ++ members rest
                end) o ++ "}"
  end.

Fixpoint repeat_char (c : ascii) (len : nat) : string :=
  match len with
  | 0 => ""
  | S len' => String c (repeat_char c len')
  end.

(** [letter k] is the letter that call [k] of the generator repeats. *)
Definition platform (letter : nat → ascii) : Platform.
Proof.
  refine {| hmac_sha1_hex key data := "digest(" ++ key ++ "," ++ data ++ ")";
            JSON_stringify v := match v with
                                | VUndefined => None
                                | _ => Some (stringify v)
                                end;
            Number_toString := print_number;
            path_join a b := a ++ "/" ++ b;
            randomstring_generate k len := repeat_char (letter k) len |}.
  - intros v Hv. destruct v; try done; eexists; reflexivity.
  - intros k len. induction len as [|len IH]; simpl; congruence.
Defined.

(** A generator whose calls differ, and one that draws the same string
    every time. *)
Definition lucky : Platform := platform (λ k, ascii_of_nat (97 + k `mod` 26)).
Definition unlucky : Platform := platform (λ _, "a"%char).

Definition functionA : Deployment.t :=
  {| Deployment.repository := "octo/site"; Deployment.path := "functions/a";
     Deployment.functionName := "fnA" |}.
Definition functionB : Deployment.t :=
  {| Deployment.repository := "octo/site"; Deployment.path := "functions/b";
     Deployment.functionName := "fnB" |}.
Definition other : Deployment.t :=
  {| Deployment.repository := "octo/other"; Deployment.path := ".";
     Deployment.functionName := "fnC" |}.

Definition config : Config.t :=
  {| Config.stageBucket := "B"; Config.location := "us-central1";
     Config.secretToken := "s3cret";
     Config.deployments := [functionA; other; functionB] |}.

(** A push to [owner/repo], signed or not. *)
Definition push_body (owner repo : string) : value :=
  VObj [("repository", VObj [("name", VStr repo); ("owner", VObj [("name", VStr owner)])])].

Definition signed (b : value) : Request :=
  {| body := b;
     headers := {[ "x-hub-signature" := "sha1=digest(s3cret," ++ stringify b ++ ")" ]} |}.

Definition unsigned (b : value) : Request :=
  {| body := b; headers := ∅ |}.

Definition operation1 : value := VObj [("name", VStr "operations/1")].
Definition operation2 : value := VObj [("name", VStr "operations/2")].

Definition done_with (response : value) : value :=
  VObj [("name", VStr "operations/1"); ("done", VBool true); ("response", response)].

(** A finished operation that failed: it has an [error] and no [response]. *)
Definition done_with_error : value :=
  VObj [("name", VStr "operations/1"); ("done", VBool true);
        ("error", VObj [("code", VNum 3); ("message", VStr "Build failed")])].

Definition failure (message : string) : obj := [("message", VStr message)].

Definition project : option string := Some "my-project".

(** A signed push to [octo/site], which [functionA] and [functionB] deploy. *)
Definition push : Request := signed (push_body "octo" "site").

(** The push has arrived, the repository was fetched, and both archives were
    made and uploaded: the two deployments have just been started. *)
Definition uploaded_both : list input :=
  [Incoming push;
   Callback 0 (downloaded VNull);
   Callback 0 (zipped 0 VNull); Callback 0 (zipped 1 VNull);
   Callback 0 (uploaded 0 None); Callback 0 (uploaded 1 None)].

Definition authenticate (i : nat) : input :=
  Callback 0 (deploy_event i (authenticated VNull)).

(** The error of [functions.create] for a function that exists. *)
Definition already_exists : value :=
  VObj [("code", VNum 409);
        ("errors", VArr [VObj [("reason", VStr "alreadyExists")]])].

(** An error of the Cloud Functions API that has a status code. *)
Definition quota_exceeded : value :=
  VObj [("message", VStr "Quota exceeded"); ("statusCode", VNum 429)].

(** Both deployments get a client; the create of the first one starts an
    operation, the create of the second one fails. *)
Definition second_create_fails : list input :=
  (uploaded_both ++
   [authenticate 0; authenticate 1;
    Callback 0 (deploy_event 0 (created VNull operation1));
    Callback 0 (deploy_event 1 (created quota_exceeded VUndefined))])%list.

Definition resourceA : Resource :=
  {| sourceArchiveUrl := "gs://B/aaaaaaaaaaaaa.zip";
     name := "projects/my-project/locations/us-central1/functions/fnA" |}.
Definition resourceB : Resource :=
  {| sourceArchiveUrl := "gs://B/bbbbbbbbbbbbb.zip";
     name := "projects/my-project/locations/us-central1/functions/fnB" |}.

(** The request after [second_create_fails]. *)
Definition after_second_create_fails : Req :=
  {| at_stage := Deploying [Pending (AwaitOperation 0 operation1); Failed quota_exceeded];
     ended := Caught quota_exceeded;
     res := [Response (VNum 429) (VStr "Quota exceeded")] |}.

(** Both deployments get a client and start an operation; the operation of
    the first one finishes with an error, that of the second one with a
    response. *)
Definition first_operation_fails : list input :=
  (uploaded_both ++
   [authenticate 0; authenticate 1;
    Callback 0 (deploy_event 0 (created VNull operation1));
    Callback 0 (deploy_event 1 (created VNull operation2));
    Callback 0 (deploy_event 0 (got VNull done_with_error));
    Callback 0 (deploy_event 1 (got VNull (done_with (VObj [("name", VStr "fnB")]))))])%list.

(** The request after [first_operation_fails]. *)
Definition after_first_operation_fails : Req :=
  {| at_stage := Deploying [Stalled; Resolved (VObj [("name", VStr "fnB")])];
     ended := Awaiting; res := [] |}.

(** A request whose two uploads are awaited. *)
Definition uploading : Req :=
  {| at_stage := Uploading [Pending "/tmp/a.zip"; Pending "/tmp/b.zip"];
     ended := Awaiting; res := [] |}.

(** A request that waits for its clone. *)
Definition downloading : Req :=
  {| at_stage := Downloading "/tmp/site"; ended := Awaiting; res := [] |}.

(** A request whose first archive is finished and whose second is awaited. *)
Definition zipping : Req :=
  {| at_stage := Zipping [Resolved "/tmp/a.zip"; Pending "/tmp/b.zip"];
     ended := Awaiting; res := [] |}.

(** A request whose only deployment is being polled, and the process that
    has matched [functionA] for it. *)
Definition polling : Req :=
  {| at_stage := Deploying [Pending (AwaitOperation 0 operation1)];
     ended := Awaiting; res := [] |}.

(** A request whose first archive has failed while the second is awaited. *)
Definition zip_failed : Req :=
  {| at_stage := Zipping [Failed (VObj (failure "disk full")); Pending "/tmp/b.zip"];
     ended := Caught (VObj (failure "disk full"));
     res := [Response (VNum 500) (VStr "disk full")] |}.

(** A request whose only deployment waits for [functions.create]. *)
Definition creating : Req :=
  {| at_stage := Deploying [Pending (AwaitCreate 0 resourceA)];
     ended := Awaiting; res := [] |}.

Definition matchedA : Process := set_currentDeployments [functionA] (boot ∅).

Definition matchedAB : Process := set_currentDeployments [functionA; functionB] (boot ∅).

Definition polling_state : State :=
  {| process := matchedA; requests := [polling]; trace := [] |}.

Definition deployedA : value := VObj [("name", VStr "fnA")].

End Demo.

(** * Properties *)

(** ** JavaScript values *)

Lemma truthy_not_nullish (v : value) : truthy v = true → is_nullish v = false.
Proof. by destruct v. Qed.

Lemma get_prop_throws (v : value) (k : string) (e : value) :
  get_prop v k = Throw e → is_nullish v = true ∧ is_nullish e = false.
Proof. destruct v; simpl; intros [= <-]; done. Qed.

Lemma get_prop_property (v : value) (k : string) :
  is_nullish v = false → get_prop v k = Normal (property v k).
Proof. by destruct v. Qed.

Lemma get_prop_nullish (v : value) (k : string) :
  is_nullish v = true → ∃ e, get_prop v k = Throw e.
Proof. destruct v; try done; eexists; reflexivity. Qed.

Lemma set_prop_throws (v : value) (k : string) (x e : value) :
  set_prop v k x = Throw e → is_nullish e = false.
Proof. destruct v; simpl; intros [= <-]; done. Qed.

Lemma catch_handler_responds (e : value) :
  is_nullish e = false → catch_handler e = Normal (error_response e).
Proof.
  intros He. unfold catch_handler, error_response.
  rewrite !get_prop_property by done. reflexivity.
Qed.

(** The guards of line 138 keep every read of it from throwing. *)
Lemma alreadyExists_total (err : value) : ∃ b, alreadyExists err = Normal b.
Proof.
  unfold alreadyExists. destruct (truthy err) eqn:Herr; [|by eexists].
  rewrite (get_prop_property err) by by apply truthy_not_nullish. simpl.
  destruct (truthy (property err "errors")) eqn:Herrors; [|by eexists].
  destruct (property err "errors") as [| |b|n|s|l|o] eqn:E; try done; simpl;
    try (by eexists).
  - destruct s as [|c s]; simpl; by eexists.
  - destruct (truthy (default VUndefined (head l))) eqn:Hfirst; [|by eexists].
    rewrite get_prop_property by by apply truthy_not_nullish. by eexists.
  - destruct (truthy (default VUndefined (own_property "0" o))) eqn:Hfirst; [|by eexists].
    rewrite get_prop_property by by apply truthy_not_nullish. by eexists.
Qed.

Lemma alreadyExists_first_reason (err : value) :
  alreadyExists err = Normal true ↔ truthy err = true ∧ first_reason err "alreadyExists".
Proof.
  unfold alreadyExists, first_reason. split.
  - destruct (truthy err) eqn:Herr; [|done]. intros Hb. split; [done|].
    destruct (get_prop err "errors") as [errors|] eqn:E1; [simpl in Hb|done].
    destruct (truthy errors); [|done].
    destruct (get_first errors) as [first|] eqn:E2; [simpl in Hb|done].
    destruct (truthy first); [|done].
    destruct (get_prop first "reason") as [reason|] eqn:E3; [simpl in Hb|done].
    exists errors, first. repeat split; [done|].
    destruct reason; simpl in Hb; try done.
    injection Hb as Hb. apply String.eqb_eq in Hb. by subst.
  - intros (Herr & errors & first & E1 & E2 & E3). rewrite Herr, E1. simpl.
    assert (truthy first = true) as Hfirst.
    { destruct first; simpl in E3; try done. }
    assert (truthy errors = true) as Herrors.
    { destruct errors as [| |b|n|s|l|o]; simpl in E2; try done;
        injection E2 as <-; simpl in Hfirst; try done.
      by destruct s. }
    rewrite Herrors, E2. simpl. rewrite Hfirst, E3. reflexivity.
Qed.

(** ** The uploader *)

Lemma cleanup_without_argument (fs : gset string) : cleanup VUndefined fs = fs.
Proof. reflexivity. Qed.

Lemma uploadArchive_files (archive : string) (upload : option value) (σ : Process) :
  files (uploadArchive archive upload σ).1 = files σ.
Proof. by destruct upload. Qed.

Lemma uploadArchive_process (archive : string) (upload : option value) (σ : Process) :
  (uploadArchive archive upload σ).1 = σ.
Proof. destruct upload, σ; reflexivity. Qed.

(** C2, at the failing input: the archive [/tmp/abc123.zip] is on the disk
    when its upload settles.  Whether the upload was fulfilled or rejected,
    the file is still there afterwards: [cleanup()] passes no path, so
    [fs.unlinkSync(undefined)] throws and nothing is removed. *)
Theorem uploadArchive_leaves_archive_on_disk :
  "/tmp/abc123.zip" ∈ files (uploadArchive "/tmp/abc123.zip" None (boot {["/tmp/abc123.zip"]})).1
  ∧ "/tmp/abc123.zip" ∈
      files (uploadArchive "/tmp/abc123.zip" (Some (VObj (Demo.failure "upload failed")))
                           (boot {["/tmp/abc123.zip"]})).1
  ∧ cleanup (VStr "/tmp/abc123.zip") {["/tmp/abc123.zip"]} = ∅.
Proof.
  rewrite !uploadArchive_files. simpl. split_and!; [set_solver..|].
  unfold cleanup, unlinkSync. rewrite bool_decide_eq_true_2 by set_solver. set_solver.
Qed.

(** ** Strings and base names *)

Lemma append_assoc (a b c : string) : (a ++ b) ++ c = a ++ (b ++ c).
Proof.
  induction a as [|x a IH]; [done|].
  change (String x ((a ++ b) ++ c) = String x (a ++ (b ++ c))). by rewrite IH.
Qed.

Lemma list_ascii_of_string_append (a b : string) :
  list_ascii_of_string (a ++ b) = (list_ascii_of_string a ++ list_ascii_of_string b)%list.
Proof.
  induction a as [|x a IH]; [done|].
  change (x :: list_ascii_of_string (a ++ b)
          = x :: (list_ascii_of_string a ++ list_ascii_of_string b)%list).
  by rewrite IH.
Qed.

Lemma append_inj_tail (a b s : string) : a ++ s = b ++ s → a = b.
Proof.
  intros E. apply (f_equal list_ascii_of_string) in E.
  rewrite !list_ascii_of_string_append in E. apply app_inv_tail in E.
  rewrite <- (string_of_list_ascii_of_string a), <- (string_of_list_ascii_of_string b).
  by rewrite E.
Qed.

Lemma until_slash_app (l r : list ascii) :
  Forall (λ c, is_slash c = false) l →
  until_slash (l ++ "/"%char :: r) = l.
Proof.
  induction 1 as [|c l Hc _ IH]; [done|]. cbn. by rewrite Hc, IH.
Qed.

(** The base name of [dir/file] is [file]. *)
Lemma path_base_file (dir file : string) :
  file ≠ "" →
  Forall (λ c, is_slash c = false) (list_ascii_of_string file) →
  path_base (dir ++ "/" ++ file) = file.
Proof.
  intros Hne Hfile. unfold path_base.
  rewrite !list_ascii_of_string_append, !rev_app_distr. cbn [list_ascii_of_string rev app].
  rewrite <- !app_assoc. cbn [app].
  assert (Forall (λ c, is_slash c = false) (rev (list_ascii_of_string file))) as Hrev.
  { by apply Forall_rev. }
  assert (drop_slashes (rev (list_ascii_of_string file) ++ "/"%char :: rev (list_ascii_of_string dir))
          = (rev (list_ascii_of_string file) ++ "/"%char :: rev (list_ascii_of_string dir))%list) as ->.
  { destruct (rev (list_ascii_of_string file)) as [|c l] eqn:E.
    - apply (f_equal (@rev ascii)) in E. rewrite rev_involutive in E.
      apply (f_equal string_of_list_ascii) in E.
      rewrite string_of_list_ascii_of_string in E. done.
    - cbn. apply Forall_cons_1 in Hrev as [-> _]. done. }
  rewrite until_slash_app by done.
  by rewrite rev_involutive, string_of_list_ascii_of_string.
Qed.

Section Properties.
Context `{Platform}.
Variable config : Config.t.
Variable GCLOUD_PROJECT : option string.

(** ** The poll *)

Lemma pollOperation_cb_done (err _operation response name : value) (text : string) :
  truthy err = false →
  truthy (property _operation "done") = true →
  is_nullish _operation = false →
  get_prop _operation "response" = Normal response →
  get_prop response "name" = Normal name →
  ToString name = Normal text →
  pollOperation_cb err _operation = Settle (Fulfilled response).
Proof.
  intros Herr Hdone Hop Hresponse Hname Htext. unfold pollOperation_cb.
  rewrite Herr, (get_prop_property _operation "done"), Hdone by done.
  rewrite Hresponse. simpl. rewrite Hname. simpl. by rewrite Htext.
Qed.

(** A finished operation without a response makes the callback throw,
    whatever else the operation carries. *)
Lemma pollOperation_cb_done_without_response (err _operation : value) :
  truthy err = false →
  is_nullish _operation = false →
  truthy (property _operation "done") = true →
  is_nullish (property _operation "response") = true →
  ∃ e, pollOperation_cb err _operation = Throws e.
Proof.
  intros Herr Hop Hdone Hresponse. unfold pollOperation_cb.
  rewrite Herr, !get_prop_property, Hdone by done. cbn.
  destruct (get_prop_nullish _ "name" Hresponse) as [e ->]. by exists e.
Qed.

(** C3, at the failing input: the status query succeeds ([err] is [null]) and
    returns an operation that is done and carries an [error] instead of a
    [response].  The callback does not reject: it throws while it builds its
    log line from [_operation.response.name], so the deployment's promise
    never settles and its request gets no reply from it.  An operation that is
    done with a response does resolve with that response. *)
Theorem pollOperation_done_with_error_is_not_rejected
    (σ : Process) (gcf : handle) (operation : value) :
  pollOperation_cb VNull Demo.done_with_error
    = Throws (TypeError "Cannot read property 'name' of undefined")
  ∧ deploy_step config GCLOUD_PROJECT σ (AwaitOperation gcf operation)
                (got VNull Demo.done_with_error)
    = Some (σ, Stalled, [uncaught (TypeError "Cannot read property 'name' of undefined")])
  ∧ on_callback config GCLOUD_PROJECT σ
      {| at_stage := Deploying [Pending (AwaitOperation gcf operation)];
         ended := Awaiting; res := [] |}
      (deploy_event 0 (got VNull Demo.done_with_error))
    = (σ, {| at_stage := Deploying [Stalled]; ended := Awaiting; res := [] |},
       [uncaught (TypeError "Cannot read property 'name' of undefined")])
  ∧ pollOperation_cb VNull (Demo.done_with (VObj [("name", VStr "fnA")]))
    = Settle (Fulfilled (VObj [("name", VStr "fnA")])).
Proof. split_and!; reflexivity. Qed.

(** ** Create or update *)

Lemma create_cb_alreadyExists (resource : Resource) (err operation : value) :
  truthy err = true → first_reason err "alreadyExists" →
  create_cb resource err operation = Continue (resource, name resource).
Proof.
  intros Herr Hreason. unfold create_cb.
  by rewrite (proj2 (alreadyExists_first_reason err) (conj Herr Hreason)).
Qed.

Lemma create_cb_other_error (resource : Resource) (err operation : value) :
  truthy err = true → ¬ first_reason err "alreadyExists" →
  create_cb resource err operation = Settle (Rejected err).
Proof.
  intros Herr Hreason. unfold create_cb.
  destruct (alreadyExists_total err) as [[] Hb]; rewrite Hb.
  - apply alreadyExists_first_reason in Hb as [_ ?]. done.
  - by rewrite Herr.
Qed.

Lemma create_cb_success (resource : Resource) (err operation : value) :
  is_nullish err = true →
  create_cb resource err operation = Settle (Fulfilled operation).
Proof. by destruct err. Qed.

(** C6: when [functions.create] fails and the first entry of [err.errors] has
    the reason [alreadyExists], [functions.update] is called with the same
    resource and with [resource.name], and what its callback gets decides: an
    error rejects the deployment, anything else goes on to the poll of the
    operation it returned.  Any other error of [functions.create] rejects the
    deployment, with no further call.  A create without error resolves with
    the operation it returned (the poll of that operation comes next).  A
    rejected deployment takes no further callback. *)
Theorem createOrUpdateFunction_create_then_update
    (σ : Process) (gcf : handle) (resource : Resource) (err operation : value) :
  (truthy err = true → first_reason err "alreadyExists" →
     create_cb resource err operation = Continue (resource, name resource) ∧
     deploy_step config GCLOUD_PROJECT σ (AwaitCreate gcf resource) (created err operation)
       = Some (σ, Pending (AwaitUpdate gcf resource),
               [functions_update gcf resource (name resource)]))
  ∧ (truthy err = true → ¬ first_reason err "alreadyExists" →
     create_cb resource err operation = Settle (Rejected err) ∧
     deploy_step config GCLOUD_PROJECT σ (AwaitCreate gcf resource) (created err operation)
       = Some (σ, Failed err, []))
  ∧ (is_nullish err = true →
     create_cb resource err operation = Settle (Fulfilled operation) ∧
     deploy_step config GCLOUD_PROJECT σ (AwaitCreate gcf resource) (created err operation)
       = Some (σ, (start_poll gcf operation).1, (start_poll gcf operation).2))
  ∧ (truthy err = true →
     update_cb err operation = Rejected err ∧
     deploy_step config GCLOUD_PROJECT σ (AwaitUpdate gcf resource) (updated err operation)
       = Some (σ, Failed err, []))
  ∧ (truthy err = false →
     update_cb err operation = Fulfilled operation ∧
     deploy_step config GCLOUD_PROJECT σ (AwaitUpdate gcf resource) (updated err operation)
       = Some (σ, (start_poll gcf operation).1, (start_poll gcf operation).2))
  ∧ (∀ q slots i e ev,
       at_stage q = Deploying slots → slots !! i = Some (Failed e) →
       on_callback config GCLOUD_PROJECT σ q (deploy_event i ev) = (σ, q, [])).
Proof.
  split_and!.
  - intros Herr Hreason. split; [by apply create_cb_alreadyExists|].
    simpl. by rewrite create_cb_alreadyExists.
  - intros Herr Hreason. split; [by apply create_cb_other_error|].
    simpl. by rewrite create_cb_other_error.
  - intros Herr. split; [by apply create_cb_success|].
    simpl. rewrite create_cb_success by done. by destruct (start_poll gcf operation).
  - intros Herr. unfold deploy_step, update_cb. by rewrite Herr.
  - intros Herr. unfold deploy_step, update_cb. rewrite Herr.
    by destruct (start_poll gcf operation).
  - intros q slots i e ev Hq Hi. unfold on_callback. by rewrite Hq, Hi.
Qed.

(** ** The resource descriptor *)

(** C5: the resource that [deployFunction] builds for an archive and a
    function name has the source archive URL [gs://<stageBucket>/<base name of
    the archive>] and the name
    [projects/<project>/locations/<location>/functions/<function name>], where
    the project is [GCLOUD_PROJECT]; for an archive [dir/file] the base name
    is [file], so [/tmp/abc123.zip] and bucket [B] give [gs://B/abc123.zip].
    It is this resource that [functions.create] is called with, whether the
    client was cached or has just been made. *)
Theorem deployFunction_resource_descriptor (archive functionName : string) :
  let resource := deployFunction_resource config GCLOUD_PROJECT archive functionName in
  let location := deployFunction_location config GCLOUD_PROJECT in
  sourceArchiveUrl resource = "gs://" ++ Config.stageBucket config ++ "/" ++ path_base archive
  ∧ name resource
    = "projects/" ++ PROJECT_ID GCLOUD_PROJECT ++ "/locations/" ++ Config.location config
      ++ "/functions/" ++ functionName
  ∧ (∀ project, GCLOUD_PROJECT = Some project → PROJECT_ID GCLOUD_PROJECT = project)
  ∧ (∀ dir file,
       archive = dir ++ "/" ++ file → file ≠ "" →
       Forall (λ c, is_slash c = false) (list_ascii_of_string file) →
       sourceArchiveUrl resource = "gs://" ++ Config.stageBucket config ++ "/" ++ file)
  ∧ (archive = "/tmp/abc123.zip" ∨ archive = "abc123.zip" →
     Config.stageBucket config = "B" →
       sourceArchiveUrl resource = "gs://B/abc123.zip")
  ∧ Resource_value resource
    = VObj [("sourceArchiveUrl",
             VStr ("gs://" ++ Config.stageBucket config ++ "/" ++ path_base archive));
            ("name",
             VStr ("projects/" ++ PROJECT_ID GCLOUD_PROJECT ++ "/locations/"
                   ++ Config.location config ++ "/functions/" ++ functionName));
            ("httpsTrigger", VObj [])]
  ∧ (∀ σ gcf, client σ = Some gcf →
       deployFunction config GCLOUD_PROJECT σ archive functionName
       = (Pending (AwaitCreate gcf resource), [functions_create gcf resource location]))
  ∧ (∀ σ err, truthy err = false →
       deploy_step config GCLOUD_PROJECT σ (AwaitClient archive functionName) (authenticated err)
       = Some (set_client (clients_made σ) σ,
               Pending (AwaitCreate (clients_made σ) resource),
               [functions_create (clients_made σ) resource location])).
Proof.
  cbv zeta. split_and!.
  - reflexivity.
  - unfold deployFunction_resource, deployFunction_location. cbn [name].
    by rewrite !append_assoc.
  - by intros project ->.
  - intros dir file -> Hne Hfile. cbn [deployFunction_resource sourceArchiveUrl].
    by rewrite path_base_file.
  - intros [-> | ->] HB; cbn [deployFunction_resource sourceArchiveUrl]; by rewrite HB.
  - unfold Resource_value, deployFunction_resource, deployFunction_location. cbn [name sourceArchiveUrl].
    by rewrite !append_assoc.
  - intros σ gcf Hclient. unfold deployFunction. by rewrite Hclient.
  - intros σ err Herr. cbn [deploy_step]. unfold getClient_cb. by rewrite Herr.
Qed.

(** ** The archiver *)

Lemma zipDirs_spec (directory : string) (current : list Deployment.t) (σ : Process) :
  random_calls (zipDirs directory current σ).1.1 = random_calls σ + length current
  ∧ length (zipDirs directory current σ).1.2 = length current
  ∧ ∀ i d, current !! i = Some d →
      (zipDirs directory current σ).1.2 !! i
        = Some (Pending (zipDir_archive (random_calls σ + i)))
      ∧ (zipDirs directory current σ).2 !! i
        = Some (zipFolder (path_join directory (Deployment.path d))
                          (zipDir_archive (random_calls σ + i))).
Proof.
  revert σ. induction current as [|d0 current IH]; intros σ.
  - cbn. split_and!; [lia|done|]. intros i d Hi. by rewrite lookup_nil in Hi.
  - cbn [zipDirs]. specialize (IH (next_random σ)).
    destruct (zipDirs directory current (next_random σ)) as [[σ' slots] calls].
    cbn in IH |- *. destruct IH as (Hcalls & Hlen & IH). split_and!; [lia|lia|].
    intros [|i] d Hi; cbn in Hi |- *.
    + injection Hi as ->. by rewrite Nat.add_0_r.
    + replace (random_calls σ + S i) with (S (random_calls σ + i)) by lia. by apply IH.
Qed.

(** C8 as amended: a call of the archiver that is the [k]-th to draw a random
    string writes to [/tmp/<token>.zip], where the token is the string of 13
    characters drawn; every call draws anew; and two calls choose the same
    path exactly when they drew the same token (nothing else keeps two paths
    apart). *)
Theorem zipDir_path_is_its_token (k1 k2 : nat) :
  zipDir_archive k1 = "/tmp/" ++ randomstring_generate k1 13 ++ ".zip"
  ∧ String.length (randomstring_generate k1 13) = 13
  ∧ (zipDir_archive k1 = zipDir_archive k2
     ↔ randomstring_generate k1 13 = randomstring_generate k2 13)
  ∧ (∀ directory current σ,
       random_calls (zipDirs directory current σ).1.1 = random_calls σ + length current
       ∧ ∀ i d, current !! i = Some d →
           (zipDirs directory current σ).1.2 !! i
             = Some (Pending (zipDir_archive (random_calls σ + i)))
           ∧ (zipDirs directory current σ).2 !! i
             = Some (zipFolder (path_join directory (Deployment.path d))
                               (zipDir_archive (random_calls σ + i)))).
Proof.
  split_and!.
  - reflexivity.
  - apply randomstring_generate_length.
  - unfold zipDir_archive. split; [|by intros ->].
    intros E. apply (inj (String.append "/tmp/")) in E. by apply append_inj_tail in E.
  - intros directory current σ.
    destruct (zipDirs_spec directory current σ) as (? & _ & ?). done.
Qed.

(** ** The handler before its first wait *)

Lemma closed_takes_no_callback (σ : Process) (q : Req) (cb : callback) :
  at_stage q = Closed ∨ (∃ e, at_stage q = Threw e) →
  on_callback config GCLOUD_PROJECT σ q cb = (σ, q, []).
Proof. intros [Hq|[e Hq]]; unfold on_callback; by rewrite Hq. Qed.

(** C10: when the body of the request has no [repository] (reading it gives
    [undefined] or [null], or the body itself cannot be read), or its
    [repository] has no [owner], the handler throws at line 236, whatever the
    signature header says: no response is sent then or later, the state of
    the process is untouched and no collaborator is called. *)
Theorem githubAutoDeployer_throws_without_owner (req : Request) (σ : Process) :
  missing (body req) "repository"
  ∨ (∃ repository, get_prop (body req) "repository" = Normal repository
                   ∧ missing repository "owner") →
  ∃ e, githubAutoDeployer config req σ
         = (σ, {| at_stage := Threw e; ended := Awaiting; res := [] |}, [])
       ∧ is_nullish e = false
       ∧ ∀ σ' cb, on_callback config GCLOUD_PROJECT σ'
                    {| at_stage := Threw e; ended := Awaiting; res := [] |} cb
                  = (σ', {| at_stage := Threw e; ended := Awaiting; res := [] |}, []).
Proof.
  intros Hmissing.
  assert (∃ e, repository_of req = Throw e ∧ is_nullish e = false) as (e & He & Hne).
  { unfold repository_of.
    destruct (get_prop (body req) "repository") as [repository|e] eqn:Hrepository.
    - assert (missing repository "owner") as Howner.
      { destruct Hmissing as [Hm|(r & [= <-] & Hm)]; [|done].
        specialize (Hm _ Hrepository). intros x Hx.
        apply get_prop_nullish with (k := "owner") in Hm as [e He]. congruence. }
      cbn. destruct (get_prop repository "owner") as [owner|e] eqn:Hown.
      + specialize (Howner _ Hown).
        destruct (get_prop_nullish owner "name" Howner) as [e He].
        exists e. cbn. rewrite He. split; [done|].
        by apply get_prop_throws in He as [_ ?].
      + exists e. split; [done|]. by apply get_prop_throws in Hown as [_ ?].
    - exists e. split; [done|]. by apply get_prop_throws in Hrepository as [_ ?]. }
  exists e. split_and!; [|done|].
  - unfold githubAutoDeployer. by rewrite He.
  - intros σ' cb. apply closed_takes_no_callback. right. by eexists.
Qed.



Lemma validateRequest_rejects (req : Request) (e : value) :
  validateRequest config req = Rejected e → is_nullish e = false.
Proof.
  unfold validateRequest. destruct (JSON_stringify (body req)); [destruct (negb _)|];
    intros [= <-]; done.
Qed.

Lemma reject_chain_awaiting (q : Req) (e : value) :
  ended q = Awaiting → is_nullish e = false →
  reject_chain q e
  = ({| at_stage := at_stage q; ended := Caught e; res := res q ++ [error_response e] |}, []).
Proof.
  intros Hq He. unfold reject_chain. by rewrite Hq, catch_handler_responds.
Qed.


(** ** The matcher *)

(** C4: the matcher keeps, in the order of the configuration, exactly the
    entries whose [repository] equals the identifier, and stores them in
    [config.currentDeployments].  When there are none it fails with [No
    matching deployments for <repository>.]; the handler then answers 500
    with that message, and whether or not the request was validated it calls
    no collaborator (no repository is fetched), then or later. *)
Theorem getCurrentDeployments_selects_matches (repository : string) (σ : Process) :
  let matched :=
    filter (λ d, Deployment.repository d = repository) (Config.deployments config) in
  let message := "No matching deployments for " ++ repository ++ "." in
  currentDeployments (getCurrentDeployments config repository σ).1 = matched
  ∧ (∀ d, d ∈ matched ↔ d ∈ Config.deployments config ∧ Deployment.repository d = repository)
  ∧ matched `sublist_of` Config.deployments config
  ∧ (matched ≠ [] → (getCurrentDeployments config repository σ).2 = Fulfilled ())
  ∧ (matched = [] →
       (getCurrentDeployments config repository σ).2 = Rejected (Error message)
       ∧ ∀ req repo,
           repository_of req = Normal (repository, repo) →
           (githubAutoDeployer config req σ).2 = []
           ∧ (∀ σ' cb,
                on_callback config GCLOUD_PROJECT σ' (githubAutoDeployer config req σ).1.2 cb
                = (σ', (githubAutoDeployer config req σ).1.2, []))
           ∧ (validateRequest config req = Fulfilled () →
              (githubAutoDeployer config req σ).1.2
              = {| at_stage := Closed; ended := Caught (Error message);
                   res := [Response (VNum 500) (VStr message)] |})).
Proof.
  cbv zeta. unfold getCurrentDeployments.
  set (matched := filter _ _). split_and!.
  - by destruct (Nat.eqb _ _).
  - intros d. unfold matched. rewrite list_elem_of_filter. tauto.
  - apply sublist_filter.
  - intros Hne. by destruct matched.
  - intros Hnil. rewrite Hnil. split; [done|]. intros req repo Hrepo.
    assert (∃ q, (at_stage q = Closed) ∧
                 (githubAutoDeployer config req σ).2 = [] ∧
                 (githubAutoDeployer config req σ).1.2 = q ∧
                 (validateRequest config req = Fulfilled () →
                  q = {| at_stage := Closed;
                         ended := Caught (Error ("No matching deployments for " ++ repository ++ "."));
                         res := [Response (VNum 500)
                                   (VStr ("No matching deployments for " ++ repository ++ "."))] |}))
      as (q & Hq & Hcalls & Hreq & Hres).
    { unfold githubAutoDeployer. rewrite Hrepo.
      destruct (validateRequest config req) as [[]|e] eqn:Hv.
      - unfold getCurrentDeployments. fold matched. rewrite Hnil. cbn.
        eexists. split; [|split; [done|split; [reflexivity|done]]]. done.
      - apply validateRequest_rejects in Hv.
        rewrite reject_chain_awaiting by done. cbn.
        eexists. split; [|split; [done|split; [reflexivity|done]]]. done. }
    rewrite Hcalls, Hreq. split_and!; [done| |done].
    intros σ' cb. apply closed_takes_no_callback. by left.
Qed.

(** ** One response for each request *)

Lemma all_resolved_lookup {P R} (slots : list (slot P R)) (values : list R) i s :
  all_resolved slots = Some values → slots !! i = Some s → ∃ r, s = Resolved r.
Proof.
  revert values i. induction slots as [|s0 slots IH]; intros values i Hall Hi.
  - by rewrite lookup_nil in Hi.
  - destruct s0 as [p|r|e|]; try done. cbn in Hall.
    destruct (all_resolved slots) as [rs|] eqn:E; [|done].
    destruct i as [|i]; cbn in Hi.
    + injection Hi as <-. by eexists.
    + by eapply IH.
Qed.

Lemma insert_none_failed {P R} (slots : list (slot P R)) i s :
  (∀ e, Failed e ∉ slots) → (∀ e, s ≠ Failed e) → ∀ e, Failed e ∉ <[i:=s]> slots.
Proof.
  intros Hslots Hs e [j Hj]%list_elem_of_lookup.
  apply list_lookup_insert_Some in Hj as [(_ & Heq & _)|[_ Hj]].
  - by apply (Hs e).
  - apply (Hslots e). apply list_elem_of_lookup. by exists j.
Qed.

Lemma annotate_throws (current : list Deployment.t) (i : nat) (results : list value) e :
  annotate current i results = Throw e → is_nullish e = false.
Proof.
  revert i. induction results as [|result results IH]; intros i; [done|]. cbn.
  destruct (set_prop result "deployment" _) as [result'|e'] eqn:Hset; cbn.
  - destruct (annotate current (S i) results) as [rest|e'] eqn:Hrest; cbn; [done|].
    intros [= <-]. by eapply IH.
  - intros [= <-]. by eapply set_prop_throws.
Qed.

(** Whatever the chain is rejected with, the [.catch] leaves the request
    consistent: it answers, or it throws on [undefined] and [null] and
    nothing goes out. *)
Lemma reject_chain_awaiting_consistent (q : Req) (e : value) :
  ended q = Awaiting → res q = [] →
  (∀ destination, at_stage q ≠ Downloading destination) →
  consistent (reject_chain q e).1.
Proof.
  intros Hended Hres Hstage. unfold reject_chain. rewrite Hended.
  destruct (is_nullish e) eqn:He.
  - destruct (get_prop_nullish e "stack" He) as [thrown Hthrown].
    unfold catch_handler. rewrite Hthrown. unfold consistent. cbn. by rewrite He, Hres.
  - rewrite catch_handler_responds by done. unfold consistent. cbn. by rewrite He, Hres.
Qed.

Lemma reject_chain_consistent (q : Req) (e : value) :
  consistent q → ended q ≠ Succeeded →
  (∀ destination, at_stage q ≠ Downloading destination) →
  consistent (reject_chain q e).1.
Proof.
  intros Hq Hne Hstage. destruct (ended q) eqn:Hended; [|done|].
  - apply reject_chain_awaiting_consistent; [done| |done].
    unfold consistent in Hq. rewrite Hended in Hq. apply Hq.
  - unfold reject_chain. by rewrite Hended.
Qed.

Lemma then_respond_consistent (σ : Process) (q : Req) slots (results : list value) :
  ended q = Awaiting → res q = [] →
  at_stage q = Deploying slots → all_resolved slots = Some results →
  consistent (then_respond σ q results).1.
Proof.
  intros Hended Hres Hstage Hall. unfold then_respond.
  destruct (annotate (currentDeployments σ) 0 results) as [results'|e] eqn:Hannotate.
  - unfold consistent. cbn. rewrite Hres. by exists slots, results, (currentDeployments σ), results'.
  - apply reject_chain_awaiting_consistent; [done..|]. by rewrite Hstage.
Qed.

Lemma deployFunctions_spec (σ : Process) (i : nat) (archives : list string) :
  Forall (λ s, ∃ p, s = Pending p)
         (deployFunctions config GCLOUD_PROJECT σ i archives).1.1
  ∧ ∀ e, (deployFunctions config GCLOUD_PROJECT σ i archives).2 = Some e →
         is_nullish e = false.
Proof.
  revert i. induction archives as [|archive archives IH]; intros i; cbn.
  - split; [constructor|done].
  - destruct (currentDeployments σ !! i) as [d|]; cbn.
    + specialize (IH (S i)).
      destruct (deployFunctions config GCLOUD_PROJECT σ (S i) archives) as [[slots calls] thrown].
      cbn in IH. destruct IH as [IH1 IH2].
      unfold deployFunction. destruct (client σ); cbn; (split; [|done]);
        constructor; eauto.
    + split; [constructor|]. by intros e [= <-].
Qed.

Lemma pending_none_failed {P R} (slots : list (slot P R)) :
  Forall (λ s, ∃ p, s = Pending p) slots → ∀ e, Failed e ∉ slots.
Proof.
  intros Hall e He. rewrite Forall_forall in Hall. by destruct (Hall _ He).
Qed.

Lemma then_deploy_consistent (σ : Process) (q : Req) (archives : list string) :
  ended q = Awaiting → res q = [] →
  consistent (then_deploy config GCLOUD_PROJECT σ q archives).1.
Proof.
  intros Hended Hres. unfold then_deploy.
  destruct (deployFunctions_spec σ 0 archives) as [Hpending Hthrown].
  destruct (deployFunctions config GCLOUD_PROJECT σ 0 archives) as [[slots calls] thrown].
  cbn in Hpending, Hthrown. destruct thrown as [e|].
  - pose proof (reject_chain_awaiting_consistent (at_ q (Deploying slots)) e
                  Hended Hres) as Hc.
    destruct (reject_chain (at_ q (Deploying slots)) e). by apply Hc.
  - destruct (all_resolved slots) as [results|] eqn:Hall.
    + pose proof (then_respond_consistent σ (at_ q (Deploying slots)) slots results
                    Hended Hres eq_refl Hall) as Hc.
      by destruct (then_respond σ (at_ q (Deploying slots)) results).
    + unfold consistent. cbn. rewrite Hended. split; [done|].
      unfold none_failed. cbn. by apply pending_none_failed.
Qed.

Lemma then_upload_consistent (σ : Process) (q : Req) (archives : list string) :
  ended q = Awaiting → res q = [] →
  consistent (then_upload config GCLOUD_PROJECT σ q archives).1.
Proof.
  intros Hended Hres. unfold then_upload. destruct archives as [|archive archives].
  - by apply then_deploy_consistent.
  - unfold consistent. cbn -[fmap]. rewrite Hended. split; [done|].
    unfold none_failed. cbn -[fmap]. apply pending_none_failed.
    apply Forall_fmap, Forall_true. intros a. by eexists.
Qed.

Lemma zipDirs_pending (directory : string) (current : list Deployment.t) (σ : Process) :
  Forall (λ s, ∃ p, s = Pending p) (zipDirs directory current σ).1.2.
Proof.
  revert σ. induction current as [|d current IH]; intros σ; cbn; [constructor|].
  specialize (IH (next_random σ)).
  destruct (zipDirs directory current (next_random σ)) as [[σ' slots] calls].
  cbn in *. constructor; eauto.
Qed.

Lemma then_zip_consistent (σ : Process) (q : Req) (directory : string) :
  ended q = Awaiting → res q = [] →
  consistent (then_zip config GCLOUD_PROJECT σ q directory).1.2.
Proof.
  intros Hended Hres. unfold then_zip.
  pose proof (zipDirs_pending directory (currentDeployments σ) σ) as Hpending.
  destruct (zipDirs directory (currentDeployments σ) σ) as [[σ' slots] calls].
  cbn in Hpending. destruct slots as [|s slots].
  - pose proof (then_upload_consistent σ' (at_ q (Zipping [])) [] Hended Hres) as Hc.
    by destruct (then_upload config GCLOUD_PROJECT σ' (at_ q (Zipping [])) []).
  - unfold consistent. cbn. rewrite Hended. split; [done|].
    unfold none_failed. cbn. by apply pending_none_failed.
Qed.

Lemma member_moved_consistent {P R} (q : Req) (at_slots : stage)
    (slots : list (slot P R)) (s : slot P R) (next : Req → list R → Req * list call) :
  consistent q → ended q ≠ Succeeded →
  (∀ destination, at_slots ≠ Downloading destination) →
  ((∀ e, s ≠ Failed e) → none_failed q → none_failed (at_ q at_slots)) →
  (∀ values, ended q = Awaiting → res q = [] → all_resolved slots = Some values →
             consistent (next (at_ q at_slots) values).1) →
  consistent (member_moved q at_slots slots s next).1.
Proof.
  intros Hq Hne Hat Hstage Hnext. unfold member_moved, joined.
  destruct (ended q) eqn:Hended; [|done|].
  2: { unfold consistent in *. cbn. rewrite Hended in *.
       destruct Hq as (? & _). split; [done|]. apply Hat. }
  unfold consistent in Hq. rewrite Hended in Hq. destruct Hq as [Hres Hnone].
  assert ((∀ e, s ≠ Failed e) →
          consistent
            (match Fulfilled <$> all_resolved slots with
             | Some (Rejected e) => reject_chain (at_ q at_slots) e
             | Some (Fulfilled values) => next (at_ q at_slots) values
             | None => (at_ q at_slots, [])
             end).1) as Hrest.
  { intros Hnot. destruct (all_resolved slots) as [values|] eqn:Hall; cbn.
    - by apply Hnext.
    - unfold consistent. cbn. rewrite Hended. split; [done|]. by apply Hstage. }
  destruct s as [p|r|e|]; try (by apply Hrest).
  by apply reject_chain_awaiting_consistent.
Qed.

Lemma start_poll_failed (gcf : handle) (operation e : value) :
  (start_poll gcf operation).1 = Failed e → is_nullish e = false.
Proof.
  unfold start_poll, pollOperation.
  destruct (get_prop operation "name") eqn:Hname; cbn; [done|].
  intros [= <-]. by apply get_prop_throws in Hname as [_ ?].
Qed.

Lemma deploy_step_failed (σ σ' : Process) (p : deploying) (ev : deploy_callback)
    (e : value) (calls : list call) :
  deploy_step config GCLOUD_PROJECT σ p ev = Some (σ', Failed e, calls) →
  is_nullish e = false.
Proof.
  destruct p, ev; cbn; try done.
  - unfold getClient_cb. destruct (truthy err) eqn:Herr; [|done].
    intros [= _ <- _]. by apply truthy_not_nullish.
  - unfold create_cb. destruct (alreadyExists err) as [[]|]; try done.
    destruct (truthy err) eqn:Herr.
    + intros [= _ <- _]. by apply truthy_not_nullish.
    + destruct (loose_eq_null err); [|done].
      pose proof (start_poll_failed gcf operation e) as Hpoll.
      destruct (start_poll gcf operation). intros [= _ -> _]. by apply Hpoll.
  - unfold update_cb. destruct (truthy err) eqn:Herr.
    + intros [= _ <- _]. by apply truthy_not_nullish.
    + pose proof (start_poll_failed gcf operation e) as Hpoll.
      destruct (start_poll gcf operation). intros [= _ -> _]. by apply Hpoll.
  - unfold pollOperation_cb. destruct (truthy err) eqn:Herr.
    + intros [= _ <- _]. by apply truthy_not_nullish.
    + destruct (get_prop _operation "done") as [d|]; [|done].
      destruct (truthy d); [|done].
      by destruct (get_prop _operation "response" ≫= _).
  - pose proof (start_poll_failed gcf operation e) as Hpoll.
    destruct (start_poll gcf operation). intros [= _ -> _]. by apply Hpoll.
Qed.

Lemma consistent_pending_not_succeeded (q : Req) :
  consistent q →
  (∀ slots, at_stage q = Deploying slots → ∃ i p, slots !! i = Some (Pending p)) →
  ended q ≠ Succeeded.
Proof.
  intros Hq Hpending Hended. unfold consistent in Hq. rewrite Hended in Hq.
  destruct Hq as (slots & results & _ & _ & Hstage & Hall & _).
  destruct (Hpending _ Hstage) as (i & p & Hi).
  by destruct (all_resolved_lookup _ _ _ _ Hall Hi).
Qed.

Lemma consistent_not_deploying (q : Req) :
  consistent q → (∀ slots, at_stage q ≠ Deploying slots) → ended q ≠ Succeeded.
Proof.
  intros Hq Hstage. apply consistent_pending_not_succeeded; [done|].
  intros slots Hs. by destruct (Hstage slots).
Qed.

(** Every callback keeps a request consistent, whatever the other requests
    have made of the state of the process. *)
Lemma on_callback_consistent (σ : Process) (q : Req) (cb : callback) :
  consistent q → consistent (on_callback config GCLOUD_PROJECT σ q cb).1.2.
Proof.
  intros Hq. unfold on_callback.
  destruct (at_stage q) as [e| |destination|slots|slots|slots] eqn:Hstage;
    destruct cb as [err|i err|i err|i ev]; try done.
  - (* the download *)
    assert (ended q ≠ Succeeded) as Hne.
    { apply consistent_not_deploying; [done|]. by rewrite Hstage. }
    unfold downloadRepo_cb. destruct (truthy err) eqn:Herr.
    + pose proof (reject_chain_consistent (at_ q Closed) err) as Hc.
      destruct (reject_chain (at_ q Closed) err).
      apply Hc; [|done|done].
      unfold consistent in *. cbn. destruct (ended q); [|done|].
      * split; [apply Hq|done].
      * destruct Hq as (? & _). done.
    + unfold consistent in Hq. destruct (ended q) eqn:Hended; [|done|].
      * by apply then_zip_consistent; [|apply Hq].
      * destruct Hq as (_ & Hq). by destruct (Hq destination).
  - (* an archive *)
    destruct (slots !! i) as [[archive| | |]|] eqn:Hi; try done.
    assert (ended q ≠ Succeeded) as Hne.
    { apply consistent_not_deploying; [done|]. by rewrite Hstage. }
    set (s := settled (zipDir_cb archive err)).
    pose proof (member_moved_consistent q (Zipping (<[i:=s]> slots)) (<[i:=s]> slots) s
                  (then_upload config GCLOUD_PROJECT σ) Hq Hne) as Hc.
    destruct (member_moved q _ _ s _). cbn. apply Hc; [done|..].
    + intros Hs. unfold none_failed. rewrite Hstage. cbn. intros Hnone.
      by apply insert_none_failed.
    + intros values Hended Hres _. by apply then_upload_consistent.
  - (* an upload *)
    destruct (slots !! i) as [[archive| | |]|] eqn:Hi; try done.
    assert (ended q ≠ Succeeded) as Hne.
    { apply consistent_not_deploying; [done|]. by rewrite Hstage. }
    destruct (uploadArchive archive err σ) as [σ' settlement] eqn:Hup.
    set (s := settled settlement).
    pose proof (member_moved_consistent q (Uploading (<[i:=s]> slots)) (<[i:=s]> slots) s
                  (then_deploy config GCLOUD_PROJECT σ') Hq Hne) as Hc.
    destruct (member_moved q _ _ s _). cbn. apply Hc; [done|..].
    + intros Hs. unfold none_failed. rewrite Hstage. cbn. intros Hnone.
      by apply insert_none_failed.
    + intros values Hended Hres _. by apply then_deploy_consistent.
  - (* a deployment *)
    destruct (slots !! i) as [[p| | |]|] eqn:Hi; try done.
    assert (ended q ≠ Succeeded) as Hne.
    { apply consistent_pending_not_succeeded; [done|].
      intros slots' Hs. rewrite Hstage in Hs. injection Hs as <-. eauto. }
    destruct (deploy_step config GCLOUD_PROJECT σ p ev) as [[[σ' s] calls]|] eqn:Hstep;
      [|done].
    pose proof (member_moved_consistent q (Deploying (<[i:=s]> slots)) (<[i:=s]> slots) s
                  (then_respond σ') Hq Hne) as Hc.
    destruct (member_moved q _ _ s _). cbn. apply Hc; [done|..].
    + intros Hs. unfold none_failed. rewrite Hstage. cbn. intros Hnone.
      by apply insert_none_failed.
    + intros values Hended Hres Hall. by eapply then_respond_consistent.
Qed.

Lemma githubAutoDeployer_consistent (req : Request) (σ : Process) :
  consistent (githubAutoDeployer config req σ).1.2.
Proof.
  unfold githubAutoDeployer.
  destruct (repository_of req) as [[repository repo]|e] eqn:Hrepo; [|done].
  destruct (validateRequest config req) as [[]|e] eqn:Hv.
  - destruct (getCurrentDeployments config repository σ) as [σ' [[]|e]] eqn:Hmatch.
    + destruct (ToString repo) as [text|e] eqn:Htext; [done|].
      unfold repository_of in Hrepo.
      destruct (get_prop (body req) "repository") as [r|]; [cbn in Hrepo|done].
      destruct (get_prop r "owner") as [o|]; [cbn in Hrepo|done].
      destruct (get_prop o "name") as [user|]; [cbn in Hrepo|done].
      destruct (get_prop r "name") as [repo'|]; [cbn in Hrepo|done].
      destruct (ToString user); [cbn in Hrepo|done].
      destruct (ToString repo') eqn:Htext'; [cbn in Hrepo|done].
      injection Hrepo as _ ->. congruence.
    + unfold getCurrentDeployments in Hmatch.
      destruct (Nat.eqb _ _); [|done]. injection Hmatch as _ <-.
      rewrite reject_chain_awaiting by done. unfold consistent. by cbn.
  - pose proof (validateRequest_rejects _ _ Hv) as He.
    rewrite reject_chain_awaiting by done.
    unfold consistent. cbn. by rewrite He.
Qed.

Lemma step_consistent (st : State) (x : input) :
  Forall consistent (requests st) →
  Forall consistent (requests (step config GCLOUD_PROJECT st x)).
Proof.
  intros Hst. destruct x as [req|r cb]; cbn.
  - pose proof (githubAutoDeployer_consistent req (process st)) as Hq.
    destruct (githubAutoDeployer config req (process st)) as [[σ q] calls]. cbn in *.
    apply Forall_app. split; [done|]. by constructor.
  - destruct (requests st !! r) as [q|] eqn:Hr; [|done].
    pose proof (on_callback_consistent (process st) q cb) as Hq.
    destruct (on_callback config GCLOUD_PROJECT (process st) q cb) as [[σ q'] calls].
    cbn in *. apply Forall_insert; [done|]. apply Hq.
    by eapply Forall_lookup_1.
Qed.

Lemma run_consistent (st : State) (xs : list input) :
  Forall consistent (requests st) →
  Forall consistent (requests (run config GCLOUD_PROJECT st xs)).
Proof.
  revert st. induction xs as [|x xs IH]; intros st Hst; [done|].
  cbn. apply IH. by apply step_consistent.
Qed.

Lemma all_resolved_none_failed {P R} (slots : list (slot P R)) (values : list R) :
  all_resolved slots = Some values → ∀ e, Failed e ∉ slots.
Proof.
  intros Hall e [i Hi]%list_elem_of_lookup.
  by destruct (all_resolved_lookup _ _ _ _ Hall Hi).
Qed.

(** X26: in every state the process can reach, whatever the collaborators
    answer and in whatever order, a request has been sent at most one
    response.  While its chain is awaited nothing has gone out and no member
    of its [Promise.all] (an archive, an upload or a deployment) has been
    rejected: a rejected member means that the [.catch] has run.  The
    [.catch] has sent the error response of what it caught, and nothing when
    that was [undefined] or [null].  Only the last [.then] sends 200 with an
    array of annotated results, and it has run only if every deployment was
    fulfilled. *)
Theorem at_most_one_response
    (fs : gset string) (xs : list input) (r : nat) (q : Req) :
  requests (run config GCLOUD_PROJECT (start fs) xs) !! r = Some q →
  (length (res q) ≤ 1)%nat
  ∧ (has_failed q → ∃ e, ended q = Caught e)
  ∧ (∀ e, ended q = Caught e →
       res q = if is_nullish e then [] else [error_response e])
  ∧ (ended q = Succeeded →
     ∃ slots results current results',
       at_stage q = Deploying slots ∧
       all_resolved slots = Some results ∧
       annotate current 0 results = Normal results' ∧
       res q = [Response (VNum 200) (VArr results')])
  ∧ (ended q = Awaiting → res q = [] ∧ none_failed q).
Proof.
  intros Hr.
  assert (consistent q) as Hq.
  { eapply Forall_lookup_1; [|done]. apply run_consistent. constructor. }
  unfold consistent in Hq. destruct (ended q) as [| |e] eqn:Hended.
  - destruct Hq as [Hres Hnone]. rewrite Hres.
    split; [cbn; lia|]. split; [|done].
    unfold has_failed, none_failed in *.
    destruct (at_stage q); try done; intros [e He]; by destruct (Hnone e).
  - destruct Hq as (slots & results & current & results' & Hstage & Hall & Hann & Hres).
    rewrite Hres. split; [cbn; lia|]. split; [|split; [done|split; [|done]]].
    + unfold has_failed. rewrite Hstage. intros [e He].
      by destruct (all_resolved_none_failed _ _ Hall e).
    + intros _. by exists slots, results, current, results'.
  - destruct Hq as (Hres & _). rewrite Hres.
    split; [destruct (is_nullish e); cbn; lia|]. split; [by eauto|]. split; [|done].
    by intros e' [= <-].
Qed.

(** ** The client *)

(** With a client in [client], [getClient] hands it out and asks nobody. *)
Lemma deployFunction_cached_client (σ : Process) (gcf : handle) (archive functionName : string) :
  client σ = Some gcf →
  ∃ resource location,
    deployFunction config GCLOUD_PROJECT σ archive functionName
    = (Pending (AwaitCreate gcf resource), [functions_create gcf resource location]).
Proof. intros Hclient. unfold deployFunction. rewrite Hclient. by eexists _, _. Qed.

(** A reply without error to a pending [getClient] makes a new client and
    stores it, whether or not [client] was set in the meantime. *)
Lemma getClient_cb_replaces (σ : Process) (err : value) :
  truthy err = false →
  getClient_cb err σ = (set_client (clients_made σ) σ, Fulfilled (clients_made σ))
  ∧ client (getClient_cb err σ).1 = Some (clients_made σ)
  ∧ clients_made (getClient_cb err σ).1 = S (clients_made σ).
Proof. intros Herr. unfold getClient_cb. by rewrite Herr. Qed.

Lemma zipDirs_client (directory : string) (current : list Deployment.t) (σ : Process) :
  client (zipDirs directory current σ).1.1 = client σ.
Proof.
  revert σ. induction current as [|d current IH]; intros σ; [done|]. cbn.
  specialize (IH (next_random σ)).
  by destruct (zipDirs directory current (next_random σ)) as [[σ' slots] calls].
Qed.

Lemma deploy_step_client (σ σ' : Process) (p : deploying) (ev : deploy_callback) s calls :
  deploy_step config GCLOUD_PROJECT σ p ev = Some (σ', s, calls) →
  is_Some (client σ) → is_Some (client σ').
Proof.
  intros Hstep Hclient. destruct p, ev; cbn in Hstep; try done.
  - unfold getClient_cb in Hstep. destruct (truthy err); injection Hstep as <- _ _; [done|].
    by eexists.
  - destruct (create_cb resource err operation) as [[]|[]| |];
      try destruct (start_poll gcf a); by injection Hstep as <- _ _.
  - destruct (update_cb err operation); try destruct (start_poll gcf a);
      by injection Hstep as <- _ _.
  - destruct (pollOperation_cb err _operation) as [[]| | |]; by injection Hstep as <- _ _.
  - destruct (start_poll gcf operation). by injection Hstep as <- _ _.
Qed.

(** Once [client] is set no callback unsets it. *)
Lemma on_callback_client (σ : Process) (q : Req) (cb : callback) :
  is_Some (client σ) → is_Some (client (on_callback config GCLOUD_PROJECT σ q cb).1.1).
Proof.
  intros Hclient. unfold on_callback.
  destruct (at_stage q) as [e| |destination|slots|slots|slots];
    destruct cb as [err|i err|i err|i ev]; try done.
  - destruct (downloadRepo_cb destination err).
    + unfold then_zip. pose proof (zipDirs_client a (currentDeployments σ) σ) as Hz.
      destruct (zipDirs a (currentDeployments σ) σ) as [[σ' [|s slots]] calls]; cbn in Hz.
      * destruct (then_upload _ _ _ _ _). cbn. by rewrite Hz.
      * cbn. by rewrite Hz.
    + by destruct (reject_chain _ _).
  - destruct (slots !! i) as [[archive| | |]|]; try done. by destruct (member_moved _ _ _ _ _).
  - destruct (slots !! i) as [[archive| | |]|]; try done.
    pose proof (uploadArchive_process archive err σ) as Hup.
    destruct (uploadArchive archive err σ) as [σ' settlement]. cbn in Hup. subst σ'.
    by destruct (member_moved _ _ _ _ _).
  - destruct (slots !! i) as [[p| | |]|]; try done.
    destruct (deploy_step config GCLOUD_PROJECT σ p ev) as [[[σ' s] calls]|] eqn:Hstep; [|done].
    destruct (member_moved _ _ _ _ _). cbn. by eapply deploy_step_client.
Qed.

(** * Further properties of the functions of index.js *)

(** ** The handler up to the download *)

(** X1: a push whose signature is right and whose repository is configured
    makes exactly one call, the clone of the repository into [/tmp/<repo>];
    the matches are stored in [config.currentDeployments] and nothing is
    answered yet. *)
Theorem matching_push_starts_one_download
    (req : Request) (σ : Process) (repository : string) (repo : value) :
  repository_of req = Normal (repository, repo) →
  validateRequest config req = Fulfilled () →
  filter (λ d, Deployment.repository d = repository) (Config.deployments config) ≠ [] →
  ∃ text,
    ToString repo = Normal text
    ∧ githubAutoDeployer config req σ
      = (set_currentDeployments
           (filter (λ d, Deployment.repository d = repository) (Config.deployments config)) σ,
         {| at_stage := Downloading ("/tmp/" ++ text); ended := Awaiting; res := [] |},
         [downloadGitRepo repository ("/tmp/" ++ text)]).
Proof.
  intros Hrepo Hvalid Hmatch.
  assert (∃ text, ToString repo = Normal text) as [text Htext].
  { unfold repository_of in Hrepo.
    destruct (get_prop (body req) "repository") as [r|]; [cbn in Hrepo|done].
    destruct (get_prop r "owner") as [o|]; [cbn in Hrepo|done].
    destruct (get_prop o "name") as [user|]; [cbn in Hrepo|done].
    destruct (get_prop r "name") as [repo'|]; [cbn in Hrepo|done].
    destruct (ToString user); [cbn in Hrepo|done].
    destruct (ToString repo') as [text|] eqn:Htext; [cbn in Hrepo|done].
    injection Hrepo as _ <-. by exists text. }
  exists text. split; [done|].
  unfold githubAutoDeployer, getCurrentDeployments. rewrite Hrepo, Hvalid.
  destruct (filter _ _) as [|d matched] eqn:Hfilter; [done|].
  cbn. by rewrite Htext.
Qed.

(** X2: when the body has a [repository] with an [owner], the handler does
    not throw as long as the two names can be put into the template: the
    identifier is [<owner.name>/<repository.name>], and names that are absent
    read as [undefined], which gives [undefined/undefined]. *)
Theorem repository_of_readable_body (req : Request) (r o : value) (user repo : string) :
  get_prop (body req) "repository" = Normal r →
  get_prop r "owner" = Normal o →
  is_nullish o = false →
  ToString (property o "name") = Normal user →
  ToString (property r "name") = Normal repo →
  repository_of req = Normal (user ++ "/" ++ repo, property r "name")
  ∧ (property o "name" = VUndefined → property r "name" = VUndefined →
     repository_of req = Normal ("undefined/undefined", VUndefined)).
Proof.
  intros Hr Ho Hnull Huser Hrepo.
  assert (is_nullish r = false) as Hrn.
  { destruct (is_nullish r) eqn:E; [|done].
    apply get_prop_nullish with (k := "owner") in E as [e He]. congruence. }
  assert (repository_of req = Normal (user ++ "/" ++ repo, property r "name")) as Hgoal.
  { unfold repository_of. rewrite Hr. cbn. rewrite Ho. cbn.
    rewrite (get_prop_property o), (get_prop_property r) by done. cbn.
    by rewrite Huser, Hrepo. }
  split; [done|]. intros Hu Hn. rewrite Hgoal.
  rewrite Hu in Huser. rewrite Hn in Hrepo. cbn in Huser, Hrepo.
  injection Huser as <-. injection Hrepo as <-. by rewrite Hn.
Qed.

(** X3: a request without the header [x-hub-signature] is never validated,
    whatever its body; when the body has a JSON serialization the rejection
    is the [Unauthorized] error with status code 403. *)
Theorem validateRequest_rejects_without_header (req : Request) :
  headers req !! "x-hub-signature" = None →
  ∃ e, validateRequest config req = Rejected e
       ∧ (is_Some (JSON_stringify (body req)) → e = Unauthorized)
       ∧ property e "message" ≠ VUndefined.
Proof.
  intros Hheader. unfold validateRequest, header. rewrite Hheader.
  destruct (JSON_stringify (body req)) as [data|]; cbn.
  - exists Unauthorized. by split_and!.
  - eexists. split_and!; [done| |done]. by intros [? ?].
Qed.

(** X4: the [.catch] handler answers every error that is not [undefined] or
    [null]: with the error's [statusCode] when that is truthy, else with 500,
    and with the error's [message].  For [undefined] or [null] it throws
    while it reads [err.stack] and the request is left without a response. *)
Theorem catch_handler_total (e : value) (q : Req) :
  (is_nullish e = false →
     catch_handler e = Normal (error_response e)
     ∧ (truthy (property e "statusCode") = false →
        error_response e = Response (VNum 500) (property e "message"))
     ∧ (truthy (property e "statusCode") = true →
        error_response e = Response (property e "statusCode") (property e "message")))
  ∧ (is_nullish e = true → ended q = Awaiting →
     ∃ thrown,
       catch_handler e = Throw thrown
       ∧ reject_chain q e
         = ({| at_stage := at_stage q; ended := Caught e; res := res q |}, [uncaught thrown])).
Proof.
  split.
  - intros He. split_and!; [by apply catch_handler_responds|..];
      intros Hs; unfold error_response; by rewrite Hs.
  - intros He Hq. destruct (get_prop_nullish e "stack" He) as [thrown Hthrown].
    exists thrown. unfold reject_chain, catch_handler. by rewrite Hq, Hthrown.
Qed.

(** ** The download *)

(** X5: when the clone fails, the request is answered with the error response
    of the error the clone reported, nothing is archived, and the state of
    the process is left as it was. *)
Theorem download_failure_ends_the_request
    (σ : Process) (q : Req) (destination : string) (err : value) :
  at_stage q = Downloading destination →
  ended q = Awaiting →
  res q = [] →
  truthy err = true →
  on_callback config GCLOUD_PROJECT σ q (downloaded err)
  = (σ, {| at_stage := Closed; ended := Caught err; res := [error_response err] |}, []).
Proof.
  intros Hstage Hended Hres Herr. unfold on_callback, downloadRepo_cb.
  rewrite Hstage, Herr. rewrite reject_chain_awaiting; [|done|by apply truthy_not_nullish].
  cbn. by rewrite Hres.
Qed.

(** X6: when the clone succeeds while [config.currentDeployments] is empty
    (a later request that matched nothing has emptied it), the three
    [Promise.all] of the chain have no members: the request is answered 200
    with an empty array and no collaborator is called. *)
Theorem download_with_no_current_deployments
    (σ : Process) (q : Req) (destination : string) (err : value) :
  at_stage q = Downloading destination →
  ended q = Awaiting →
  res q = [] →
  truthy err = false →
  currentDeployments σ = [] →
  on_callback config GCLOUD_PROJECT σ q (downloaded err)
  = (σ, {| at_stage := Deploying []; ended := Succeeded;
           res := [Response (VNum 200) (VArr [])] |}, []).
Proof.
  intros Hstage Hended Hres Herr Hcurrent. unfold on_callback, downloadRepo_cb.
  rewrite Hstage, Herr. unfold then_zip. rewrite Hcurrent. cbn.
  unfold then_respond. cbn. by rewrite Hres.
Qed.

(** ** Promise.all *)

Lemma all_resolved_not_resolved {P R} (slots : list (slot P R)) i s :
  slots !! i = Some s → (∀ r, s ≠ Resolved r) → all_resolved slots = None.
Proof.
  intros Hi Hs. destruct (all_resolved slots) as [values|] eqn:Hall; [|done].
  destruct (all_resolved_lookup _ _ _ _ Hall Hi) as [r ->]. by destruct (Hs r).
Qed.

Lemma all_resolved_index {P R} (slots : list (slot P R)) (values : list R) :
  all_resolved slots = Some values →
  length values = length slots
  ∧ ∀ j r, values !! j = Some r ↔ slots !! j = Some (Resolved r).
Proof.
  revert values. induction slots as [|s slots IH]; intros values Hall.
  - injection Hall as <-. split; [done|]. intros j r. by rewrite !lookup_nil.
  - destruct s as [p|r0|e|]; try done. cbn in Hall.
    destruct (all_resolved slots) as [rs|]; [|done]. injection Hall as <-.
    destruct (IH rs eq_refl) as [Hlen Hidx]. split; [cbn; by rewrite Hlen|].
    intros [|j] r; cbn; [|apply Hidx]. split; by intros [= ->].
Qed.

Lemma at_at (q : Req) (s1 s2 : stage) : at_ (at_ q s1) s2 = at_ q s2.
Proof. reflexivity. Qed.

Lemma at_same (q : Req) (s : stage) : at_stage q = s → at_ q s = q.
Proof. intros <-. by destruct q. Qed.

(** X7: the archive that is finished last starts the uploads: one
    [bucket.upload] for every archive, in the order of the deployments and
    not in the order in which the archives were finished.  An archive that is
    finished while another is still awaited (or has failed) starts nothing. *)
Theorem last_archive_starts_the_uploads
    (σ : Process) (q : Req) (slots : list (slot string string)) (i : nat)
    (archive : string) (err : value) :
  at_stage q = Zipping slots →
  ended q = Awaiting →
  slots !! i = Some (Pending archive) →
  truthy err = false →
  (∀ archives,
     all_resolved (<[i := Resolved archive]> slots) = Some archives →
     on_callback config GCLOUD_PROJECT σ q (zipped i err)
     = (σ, {| at_stage := Uploading (Pending <$> archives); ended := Awaiting; res := res q |},
        bucket_upload <$> archives)
     ∧ length archives = length slots
     ∧ ∀ j a, archives !! j = Some a
              ↔ <[i := Resolved archive]> slots !! j = Some (Resolved a))
  ∧ (all_resolved (<[i := Resolved archive]> slots) = None →
     on_callback config GCLOUD_PROJECT σ q (zipped i err)
     = (σ, {| at_stage := Zipping (<[i := Resolved archive]> slots);
              ended := Awaiting; res := res q |}, [])).
Proof.
  intros Hstage Hended Hi Herr.
  assert (on_callback config GCLOUD_PROJECT σ q (zipped i err)
          = (σ, (member_moved q (Zipping (<[i := Resolved archive]> slots))
                   (<[i := Resolved archive]> slots) (Resolved archive)
                   (then_upload config GCLOUD_PROJECT σ)).1,
                (member_moved q (Zipping (<[i := Resolved archive]> slots))
                   (<[i := Resolved archive]> slots) (Resolved archive)
                   (then_upload config GCLOUD_PROJECT σ)).2)) as ->.
  { unfold on_callback, zipDir_cb. rewrite Hstage, Hi, Herr. cbn.
    by destruct (member_moved _ _ _ _ _). }
  unfold member_moved, joined. rewrite Hended. split.
  - intros archives Hall. rewrite Hall. cbn.
    destruct (all_resolved_index _ _ Hall) as [Hlen Hidx].
    rewrite length_insert in Hlen. split_and!; [|done|done].
    unfold then_upload. destruct archives as [|a archives].
    + apply lookup_lt_Some in Hi. cbn in Hlen. lia.
    + unfold at_. cbn -[fmap]. by rewrite Hended.
  - intros Hall. rewrite Hall. cbn. unfold at_. by rewrite Hended.
Qed.

(** ** The poll *)

Lemma not_done_continues (reply : value * value) :
  not_done reply → pollOperation_cb reply.1 reply.2 = Continue 500.
Proof.
  intros (Herr & Hop & Hdone). unfold pollOperation_cb.
  by rewrite Herr, get_prop_property, Hdone.
Qed.

Lemma start_poll_named (gcf : handle) (operation : value) :
  is_nullish operation = false →
  start_poll gcf operation
  = (Pending (AwaitOperation gcf operation),
     [operations_get gcf (property operation "name")]).
Proof. intros Hop. unfold start_poll, pollOperation. by rewrite get_prop_property. Qed.

Lemma poll_round_step (st : State) (r i : nat) (q : Req)
    (slots : list (slot deploying value)) (gcf : handle) (operation : value)
    (reply : value * value) :
  requests st !! r = Some q →
  at_stage q = Deploying slots →
  slots !! i = Some (Pending (AwaitOperation gcf operation)) →
  is_nullish operation = false →
  not_done reply →
  run config GCLOUD_PROJECT st (poll_round r i reply)
  = {| process := process st; requests := requests st;
       trace := trace st ++ [setTimeout 500; operations_get gcf (property operation "name")] |}.
Proof.
  intros Hr Hstage Hi Hop Hreply. unfold poll_round, run. cbn [fold_left].
  set (slots' := <[i := Pending (AwaitTimeout gcf operation)]> slots).
  assert (i < length slots) as Hlt by by eapply lookup_lt_Some.
  assert (r < length (requests st)) as Hrlt by by eapply lookup_lt_Some.
  assert (step config GCLOUD_PROJECT st (Callback r (deploy_event i (got reply.1 reply.2)))
          = {| process := process st;
               requests := <[r := at_ q (Deploying slots')]> (requests st);
               trace := trace st ++ [setTimeout 500] |}) as ->.
  { cbn. rewrite Hr. unfold on_callback. rewrite Hstage, Hi. cbn.
    rewrite not_done_continues by done. fold slots'.
    unfold member_moved, joined.
    assert (all_resolved slots' = None) as ->.
    { apply (all_resolved_not_resolved slots' i (Pending (AwaitTimeout gcf operation))); [|done].
      by apply list_lookup_insert_eq. }
    destruct (ended q); reflexivity. }
  cbn. rewrite list_lookup_insert_eq by done. unfold on_callback. cbn.
  unfold slots' at 1. rewrite list_lookup_insert_eq by done. cbn.
  rewrite start_poll_named by done. unfold slots'.
  rewrite list_insert_insert_eq.
  rewrite (list_insert_id slots i (Pending (AwaitOperation gcf operation))) by done.
  unfold member_moved, joined. cbn.
  assert (all_resolved slots = None) as ->.
  { by apply (all_resolved_not_resolved slots i (Pending (AwaitOperation gcf operation))). }
  rewrite at_at, (at_same q) by done.
  destruct (ended q); cbn;
    rewrite list_insert_insert_eq, list_insert_id by done;
    by rewrite <- app_assoc.
Qed.

(** X8: the poll never gives up.  While the status query reports, without
    error, an operation that is not done, every reply is followed by a timer
    of 500 and, when it fires, by the same query with the same client and the
    same operation name; after any number of such rounds the process and all
    its requests are as they were before, and nothing was answered. *)
Theorem poll_goes_on_while_not_done
    (st : State) (r i : nat) (q : Req) (slots : list (slot deploying value))
    (gcf : handle) (operation : value) (replies : list (value * value)) :
  requests st !! r = Some q →
  at_stage q = Deploying slots →
  slots !! i = Some (Pending (AwaitOperation gcf operation)) →
  is_nullish operation = false →
  Forall not_done replies →
  run config GCLOUD_PROJECT st (concat (poll_round r i <$> replies))
  = {| process := process st; requests := requests st;
       trace := trace st ++
                concat (replicate (length replies)
                          [setTimeout 500; operations_get gcf (property operation "name")]) |}.
Proof.
  intros Hr Hstage Hi Hop Hreplies. revert st Hr.
  induction Hreplies as [|reply replies Hreply _ IH]; intros st Hr.
  - cbn. rewrite app_nil_r. by destruct st.
  - cbn [fmap list_fmap concat length replicate].
    unfold run. rewrite fold_left_app.
    pose proof (poll_round_step st r i q slots gcf operation reply Hr Hstage Hi Hop Hreply)
      as Hround.
    unfold run in Hround. rewrite Hround.
    pose proof (IH {| process := process st; requests := requests st;
                      trace := trace st ++ [setTimeout 500;
                                 operations_get gcf (property operation "name")] |} Hr) as Hrest.
    unfold run in Hrest. rewrite Hrest. cbn. by rewrite <- app_assoc.
Qed.

Lemma get_prop_nullish_TypeError (v : value) (k : string) :
  is_nullish v = true → ∃ message, get_prop v k = Throw (TypeError message).
Proof. destruct v; try done; intros _; by eexists. Qed.

(** X9: the status query is made with [operation.name], so a create that
    calls back with neither an error nor an operation ([err] and [operation]
    both [undefined] or [null]) has its deployment rejected by the
    [TypeError] of that read: no status query is made, and a request that has
    not been answered yet is answered 500 with the message of the
    [TypeError]. *)
Theorem create_without_operation_answers_500
    (σ : Process) (q : Req) (slots : list (slot deploying value)) (i : nat)
    (gcf : handle) (resource : Resource) (err operation : value) :
  at_stage q = Deploying slots →
  ended q = Awaiting →
  res q = [] →
  slots !! i = Some (Pending (AwaitCreate gcf resource)) →
  is_nullish err = true →
  is_nullish operation = true →
  ∃ message,
    on_callback config GCLOUD_PROJECT σ q (deploy_event i (created err operation))
    = (σ, {| at_stage := Deploying (<[i := Failed (TypeError message)]> slots);
             ended := Caught (TypeError message);
             res := [Response (VNum 500) (VStr message)] |}, []).
Proof.
  intros Hstage Hended Hres Hi Herr Hop.
  destruct (get_prop_nullish_TypeError operation "name" Hop) as [message Hname].
  exists message. unfold on_callback. rewrite Hstage, Hi. cbn.
  rewrite create_cb_success by done. unfold start_poll, pollOperation. rewrite Hname.
  unfold member_moved, joined. rewrite Hended.
  rewrite reject_chain_awaiting by done. cbn. by rewrite Hres.
Qed.

(** ** The results *)

Lemma own_property_set_own (k k' : string) (x : value) (o : obj) :
  own_property k' (set_own k x o) = if (k =? k')%string then Some x else own_property k' o.
Proof.
  induction o as [|[k0 v] o IH]; cbn.
  - by destruct (k =? k')%string.
  - destruct (String.eqb_spec k0 k) as [->|Hne]; cbn.
    + destruct (k =? k')%string; [done|]. done.
    + destruct (String.eqb_spec k0 k') as [->|Hne'].
      * apply String.eqb_neq in Hne. rewrite String.eqb_sym in Hne. by rewrite Hne.
      * done.
Qed.

Lemma annotate_objects_from (current : list Deployment.t) (i : nat) (results : list value) :
  Forall (λ r, is_object r = true) results →
  ∃ results',
    annotate current i results = Normal results'
    ∧ length results' = length results
    ∧ ∀ j r, results !! j = Some r →
        ∃ r', results' !! j = Some r'
              ∧ is_object r' = true
              ∧ property r' "deployment"
                = match current !! (i + j) with
                  | Some d => Deployment.to_value d
                  | None => VUndefined
                  end
              ∧ ∀ k, k ≠ "deployment" → property r' k = property r k.
Proof.
  intros Hall. revert i. induction Hall as [|r results Hr _ IH]; intros i.
  - exists []. split_and!; [done..|]. intros j r Hj. by rewrite lookup_nil in Hj.
  - destruct r as [| | | | | |o]; try done. cbn.
    destruct (IH (S i)) as (rest & -> & Hlen & Hrest). cbn.
    eexists. split_and!; [done|cbn; by rewrite Hlen|].
    intros [|j] r Hj; cbn in Hj.
    + injection Hj as <-. eexists. split_and!; [done|done|..].
      * cbn. rewrite own_property_set_own. cbn. by rewrite Nat.add_0_r.
      * intros k Hk. cbn. rewrite own_property_set_own.
        destruct (String.eqb_spec "deployment" k); [by subst|done].
    + destruct (Hrest j r Hj) as (r' & Hj' & Hobj & Hdep & Hother).
      exists r'. split_and!; [done|done| |done].
      by replace (i + S j) with (S i + j) by lia.
Qed.

(** X10: when every result is an object, the annotation of the results
    succeeds, keeps their number and order, gives result [j] the property
    [deployment] with the [j]-th entry of [config.currentDeployments]
    ([undefined] when there is no such entry) and leaves every other property
    of the result as it was. *)
Theorem annotate_objects (current : list Deployment.t) (results : list value) :
  Forall (λ r, is_object r = true) results →
  ∃ results',
    annotate current 0 results = Normal results'
    ∧ length results' = length results
    ∧ ∀ j r, results !! j = Some r →
        ∃ r', results' !! j = Some r'
              ∧ property r' "deployment"
                = match current !! j with
                  | Some d => Deployment.to_value d
                  | None => VUndefined
                  end
              ∧ ∀ k, k ≠ "deployment" → property r' k = property r k.
Proof.
  intros Hall. destruct (annotate_objects_from current 0 results Hall)
    as (results' & Hann & Hlen & Hidx).
  exists results'. split_and!; [done|done|].
  intros j r Hj. destruct (Hidx j r Hj) as (r' & ? & _ & ? & ?). by exists r'.
Qed.

Lemma annotate_primitive_from (current : list Deployment.t) (i : nat) (results : list value) :
  Exists (λ r, is_primitive r = true) results →
  Forall (λ r, is_nullish r = false) results →
  ∃ message, annotate current i results = Throw (TypeError message).
Proof.
  intros Hex. revert i. induction Hex as [r results Hr|r results _ IH]; intros i Hnn.
  - destruct r; try done; cbn; by eexists.
  - apply Forall_cons_1 in Hnn as [Hr Hnn].
    destruct r as [| |b|n|s|l|o]; try done; cbn; try by eexists.
    + destruct (IH (S i) Hnn) as [message ->]. by exists message.
    + destruct (IH (S i) Hnn) as [message ->]. by exists message.
Qed.

(** X11: when one of the results is a string, a number or a boolean (a
    finished operation whose [response] is not an object), setting
    [deployment] on it throws in strict mode: the last [.then] sends no 200
    and the request is answered 500 with the message of that [TypeError]. *)
Theorem primitive_result_answers_500
    (σ : Process) (q : Req) (results : list value) :
  ended q = Awaiting →
  res q = [] →
  Exists (λ r, is_primitive r = true) results →
  Forall (λ r, is_nullish r = false) results →
  ∃ message,
    then_respond σ q results
    = ({| at_stage := at_stage q; ended := Caught (TypeError message);
          res := [Response (VNum 500) (VStr message)] |}, []).
Proof.
  intros Hended Hres Hex Hnn.
  destruct (annotate_primitive_from (currentDeployments σ) 0 results Hex Hnn) as [message Hm].
  exists message. unfold then_respond. rewrite Hm.
  rewrite reject_chain_awaiting by done. by rewrite Hres.
Qed.

(** X12: the deployment that is finished last answers the request: when the
    status query reports a finished operation with a response and every other
    deployment has been fulfilled, the response is 200 with the annotated
    results, in the order of the deployments. *)
Theorem last_deployment_answers_200
    (σ : Process) (q : Req) (slots : list (slot deploying value)) (i : nat)
    (gcf : handle) (operation err _operation response : value)
    (results results' : list value) :
  at_stage q = Deploying slots →
  ended q = Awaiting →
  res q = [] →
  slots !! i = Some (Pending (AwaitOperation gcf operation)) →
  pollOperation_cb err _operation = Settle (Fulfilled response) →
  all_resolved (<[i := Resolved response]> slots) = Some results →
  annotate (currentDeployments σ) 0 results = Normal results' →
  on_callback config GCLOUD_PROJECT σ q (deploy_event i (got err _operation))
  = (σ, {| at_stage := Deploying (<[i := Resolved response]> slots);
           ended := Succeeded;
           res := [Response (VNum 200) (VArr results')] |}, [])
  ∧ ∀ j r, results !! j = Some r
           ↔ <[i := Resolved response]> slots !! j = Some (Resolved r).
Proof.
  intros Hstage Hended Hres Hi Hpoll Hall Hann. split.
  - unfold on_callback. rewrite Hstage, Hi. cbn. rewrite Hpoll.
    unfold member_moved, joined. rewrite Hended, Hall. cbn.
    unfold then_respond. rewrite Hann. cbn. by rewrite Hres.
  - by destruct (all_resolved_index _ _ Hall).
Qed.

(** ** The start of the deployments *)

Lemma deployFunctions_in_range (σ : Process) (i : nat) (archives : list string) :
  (i + length archives ≤ length (currentDeployments σ))%nat →
  (deployFunctions config GCLOUD_PROJECT σ i archives).2 = None
  ∧ length (deployFunctions config GCLOUD_PROJECT σ i archives).1.1 = length archives
  ∧ (client σ = None →
     (deployFunctions config GCLOUD_PROJECT σ i archives).1.2
     = replicate (length archives) getApplicationDefault)
  ∧ (∀ gcf, client σ = Some gcf →
     length (deployFunctions config GCLOUD_PROJECT σ i archives).1.2 = length archives
     ∧ Forall (λ c, ∃ resource, c = functions_create gcf resource
                                      (deployFunction_location config GCLOUD_PROJECT))
              (deployFunctions config GCLOUD_PROJECT σ i archives).1.2).
Proof.
  revert i. induction archives as [|archive archives IH]; intros i Hlen.
  - cbn. split_and!; [done..|]. intros gcf _. split; [done|constructor].
  - cbn in Hlen. cbn [deployFunctions].
    destruct (currentDeployments σ !! i) as [d|] eqn:Hd.
    2: { apply lookup_ge_None in Hd. lia. }
    specialize (IH (S i)). destruct IH as (IH1 & IH2 & IH3 & IH4); [lia|].
    destruct (deployFunctions config GCLOUD_PROJECT σ (S i) archives) as [[slots calls] thrown].
    cbn in IH1, IH2, IH3, IH4. unfold deployFunction.
    destruct (client σ) as [gcf|]; cbn.
    + split_and!; [done|by rewrite IH2|done|]. intros ? [= <-].
      destruct (IH4 gcf eq_refl) as [Hl Hf]. split; [by rewrite Hl|].
      constructor; [by eexists|done].
    + split_and!; [done|by rewrite IH2|by rewrite IH3|done].
Qed.

(** X13: when the deployments of a request are started and
    [config.currentDeployments] has an entry for each archive, an unset
    [client] makes every one of them ask for the credentials (one
    [getApplicationDefault] for each deployment, and nothing else), while a
    set [client] makes every one of them call [functions.create] with that
    client, and nobody asks for credentials. *)
Theorem deployments_ask_or_reuse (σ : Process) (archives : list string) :
  (length archives ≤ length (currentDeployments σ))%nat →
  (deployFunctions config GCLOUD_PROJECT σ 0 archives).2 = None
  ∧ length (deployFunctions config GCLOUD_PROJECT σ 0 archives).1.1 = length archives
  ∧ (client σ = None →
     (deployFunctions config GCLOUD_PROJECT σ 0 archives).1.2
     = replicate (length archives) getApplicationDefault)
  ∧ (∀ gcf, client σ = Some gcf →
     length (deployFunctions config GCLOUD_PROJECT σ 0 archives).1.2 = length archives
     ∧ Forall (λ c, ∃ resource, c = functions_create gcf resource
                                      (deployFunction_location config GCLOUD_PROJECT))
              (deployFunctions config GCLOUD_PROJECT σ 0 archives).1.2).
Proof. intros Hlen. by apply deployFunctions_in_range. Qed.

Lemma deployFunctions_out_of_range (σ : Process) (i : nat) (archives : list string) :
  (i ≤ length (currentDeployments σ))%nat →
  (length (currentDeployments σ) < i + length archives)%nat →
  (deployFunctions config GCLOUD_PROJECT σ i archives).2
  = Some (TypeError "Cannot read property 'functionName' of undefined")
  ∧ length (deployFunctions config GCLOUD_PROJECT σ i archives).1.1
    = length (currentDeployments σ) - i.
Proof.
  revert i. induction archives as [|archive archives IH]; intros i Hle Hlt.
  - cbn in Hlt. lia.
  - cbn in Hlt. cbn [deployFunctions].
    destruct (currentDeployments σ !! i) as [d|] eqn:Hd.
    + apply lookup_lt_Some in Hd. specialize (IH (S i)).
      destruct IH as [IH1 IH2]; [lia..|].
      destruct (deployFunctions config GCLOUD_PROJECT σ (S i) archives) as [[slots calls] thrown].
      cbn in IH1, IH2. destruct (deployFunction _ _ _ _ _). cbn. split; [done|]. lia.
    + apply lookup_ge_None in Hd. cbn. split; [done|]. lia.
Qed.

(** X14: when [config.currentDeployments] has fewer entries than there are
    uploaded archives (another request has overwritten it in the meantime),
    reading [functionName] of the missing entry throws: the request is
    answered 500, and only the deployments before the missing entry have been
    started. *)
Theorem too_few_current_deployments (σ : Process) (q : Req) (archives : list string) :
  ended q = Awaiting →
  res q = [] →
  (length (currentDeployments σ) < length archives)%nat →
  ∃ slots calls message,
    then_deploy config GCLOUD_PROJECT σ q archives
    = ({| at_stage := Deploying slots; ended := Caught (TypeError message);
          res := [Response (VNum 500) (VStr message)] |}, calls)
    ∧ length slots = length (currentDeployments σ).
Proof.
  intros Hended Hres Hlt. unfold then_deploy.
  destruct (deployFunctions_out_of_range σ 0 archives) as [Hthrown Hlen]; [lia..|].
  destruct (deployFunctions config GCLOUD_PROJECT σ 0 archives) as [[slots calls] thrown].
  cbn in Hthrown, Hlen. subst thrown.
  rewrite reject_chain_awaiting by done. cbn. rewrite Hres.
  eexists slots, _, _. split; [done|]. lia.
Qed.

(** ** Create or update *)

(** X15: the callback of [functions.create] never throws, whatever it is
    given: it settles the promise, calls [functions.update], or does
    nothing.  It does nothing, and leaves its deployment pending for ever,
    exactly when [err] is falsy without being [null] or [undefined] (0, the
    empty string, [false], [NaN]). *)
Theorem create_cb_outcomes (resource : Resource) (err operation : value) :
  ((∃ s, create_cb resource err operation = Settle s)
   ∨ create_cb resource err operation = Continue (resource, name resource)
   ∨ create_cb resource err operation = Nothing)
  ∧ (create_cb resource err operation = Nothing
     ↔ truthy err = false ∧ is_nullish err = false)
  ∧ (truthy err = false → is_nullish err = false →
     ∀ σ gcf,
       deploy_step config GCLOUD_PROJECT σ (AwaitCreate gcf resource) (created err operation)
       = Some (σ, Stalled, [])).
Proof.
  assert (truthy err = false → alreadyExists err = Normal false) as Hfalsy.
  { intros Herr. unfold alreadyExists. by rewrite Herr. }
  split_and!.
  - unfold create_cb. destruct (alreadyExists_total err) as [[] ->]; [by right; left|].
    destruct (truthy err); [left; by eexists|].
    destruct (loose_eq_null err); [left; by eexists|by right; right].
  - unfold create_cb. split.
    + destruct (alreadyExists_total err) as [[] ->]; [done|].
      destruct (truthy err); [done|]. unfold loose_eq_null.
      by destruct (is_nullish err).
    + intros [Herr Hnull]. rewrite Hfalsy, Herr by done. unfold loose_eq_null.
      by rewrite Hnull.
  - intros Herr Hnull σ gcf. cbn. unfold create_cb, loose_eq_null.
    by rewrite Hfalsy, Herr, Hnull.
Qed.

(** ** What a run never does *)

Lemma zipDirs_files (directory : string) (current : list Deployment.t) (σ : Process) :
  files (zipDirs directory current σ).1.1 = files σ.
Proof.
  revert σ. induction current as [|d current IH]; intros σ; [done|]. cbn.
  specialize (IH (next_random σ)).
  by destruct (zipDirs directory current (next_random σ)) as [[σ' slots] calls].
Qed.

Lemma deploy_step_files (σ σ' : Process) (p : deploying) (ev : deploy_callback) s calls :
  deploy_step config GCLOUD_PROJECT σ p ev = Some (σ', s, calls) → files σ' = files σ.
Proof.
  intros Hstep. destruct p, ev; cbn in Hstep; try done.
  - unfold getClient_cb in Hstep. by destruct (truthy err); injection Hstep as <- _ _.
  - destruct (create_cb resource err operation) as [[]|[]| |];
      try destruct (start_poll gcf a); by injection Hstep as <- _ _.
  - destruct (update_cb err operation); try destruct (start_poll gcf a);
      by injection Hstep as <- _ _.
  - destruct (pollOperation_cb err _operation) as [[]| | |]; by injection Hstep as <- _ _.
  - destruct (start_poll gcf operation). by injection Hstep as <- _ _.
Qed.

Lemma on_callback_files (σ : Process) (q : Req) (cb : callback) :
  files (on_callback config GCLOUD_PROJECT σ q cb).1.1 = files σ.
Proof.
  unfold on_callback.
  destruct (at_stage q) as [e| |destination|slots|slots|slots];
    destruct cb as [err|i err|i err|i ev]; try done.
  - destruct (downloadRepo_cb destination err).
    + unfold then_zip. pose proof (zipDirs_files a (currentDeployments σ) σ) as Hz.
      destruct (zipDirs a (currentDeployments σ) σ) as [[σ' [|s slots]] calls]; cbn in Hz.
      * by destruct (then_upload _ _ _ _ _).
      * done.
    + by destruct (reject_chain _ _).
  - destruct (slots !! i) as [[archive| | |]|]; try done. by destruct (member_moved _ _ _ _ _).
  - destruct (slots !! i) as [[archive| | |]|]; try done.
    pose proof (uploadArchive_process archive err σ) as Hup.
    destruct (uploadArchive archive err σ) as [σ' settlement]. cbn in Hup. subst σ'.
    by destruct (member_moved _ _ _ _ _).
  - destruct (slots !! i) as [[p| | |]|]; try done.
    destruct (deploy_step config GCLOUD_PROJECT σ p ev) as [[[σ' s] calls]|] eqn:Hstep; [|done].
    destruct (member_moved _ _ _ _ _). cbn. by eapply deploy_step_files.
Qed.

Lemma githubAutoDeployer_process (req : Request) (σ : Process) :
  files (githubAutoDeployer config req σ).1.1 = files σ
  ∧ client (githubAutoDeployer config req σ).1.1 = client σ.
Proof.
  unfold githubAutoDeployer.
  destruct (repository_of req) as [[repository repo]|]; [|done].
  destruct (validateRequest config req) as [[]|]; [|by destruct (reject_chain _ _)].
  unfold getCurrentDeployments. destruct (Nat.eqb _ _).
  - by destruct (reject_chain _ _).
  - destruct (ToString repo); [done|]. by destruct (reject_chain _ _).
Qed.

Lemma run_cons (st : State) (x : input) (xs : list input) :
  run config GCLOUD_PROJECT st (x :: xs)
  = run config GCLOUD_PROJECT (step config GCLOUD_PROJECT st x) xs.
Proof. reflexivity. Qed.

(** X17: no run of the process removes a local file: whatever requests and
    callbacks arrive, the files on the disk that the program could have
    removed are all still there (the only removal in the program, the
    [cleanup] of [uploadArchive], is never given a path). *)
Theorem no_run_removes_a_file (st : State) (xs : list input) :
  files (process (run config GCLOUD_PROJECT st xs)) = files (process st).
Proof.
  revert st. induction xs as [|x xs IH]; intros st; [done|].
  rewrite run_cons, IH. destruct x as [req|r cb]; cbn.
  - pose proof (githubAutoDeployer_process req (process st)) as [Hf _].
    by destruct (githubAutoDeployer config req (process st)) as [[σ q] calls].
  - destruct (requests st !! r) as [q|]; [|done].
    pose proof (on_callback_files (process st) q cb) as Hf.
    by destruct (on_callback config GCLOUD_PROJECT (process st) q cb) as [[σ q'] calls].
Qed.

(** X18: once [client] holds a client, it holds one for the rest of the run:
    no request and no callback sets it back to [undefined]. *)
Theorem client_once_set_stays_set (st : State) (xs : list input) :
  is_Some (client (process st)) →
  is_Some (client (process (run config GCLOUD_PROJECT st xs))).
Proof.
  revert st. induction xs as [|x xs IH]; intros st Hclient; [done|].
  rewrite run_cons. apply IH. destruct x as [req|r cb]; cbn.
  - pose proof (githubAutoDeployer_process req (process st)) as [_ Hc].
    destruct (githubAutoDeployer config req (process st)) as [[σ q] calls]. cbn in *.
    by rewrite Hc.
  - destruct (requests st !! r) as [q|]; [|done].
    pose proof (on_callback_client (process st) q cb Hclient) as Hc.
    by destruct (on_callback config GCLOUD_PROJECT (process st) q cb) as [[σ q'] calls].
Qed.

Lemma on_callback_ended (σ : Process) (q : Req) (cb : callback) :
  consistent q → ended q ≠ Awaiting →
  ended (on_callback config GCLOUD_PROJECT σ q cb).1.2 = ended q
  ∧ res (on_callback config GCLOUD_PROJECT σ q cb).1.2 = res q.
Proof.
  intros Hq Hended.
  assert (∀ P R at_slots (slots : list (slot P R)) s next,
            ended (member_moved q at_slots slots s next).1 = ended q
            ∧ res (member_moved q at_slots slots s next).1 = res q) as Hmoved.
  { intros. unfold member_moved, joined.
    destruct (ended q) eqn:E; [done|..]; cbn; by rewrite E. }
  unfold on_callback.
  destruct (at_stage q) as [e| |destination|slots|slots|slots] eqn:Hstage;
    destruct cb as [err|i err|i err|i ev]; try done.
  - unfold consistent in Hq. destruct (ended q) as [| |e]; [done| |].
    + destruct Hq as (slots & ? & ? & ? & Hs & _). congruence.
    + destruct Hq as (_ & Hs). by destruct (Hs destination).
  - destruct (slots !! i) as [[archive| | |]|]; try done.
    specialize (Hmoved _ _ (Zipping (<[i:=settled (zipDir_cb archive err)]> slots))
                  (<[i:=settled (zipDir_cb archive err)]> slots)
                  (settled (zipDir_cb archive err)) (then_upload config GCLOUD_PROJECT σ)).
    by destruct (member_moved _ _ _ _ _).
  - destruct (slots !! i) as [[archive| | |]|]; try done.
    destruct (uploadArchive archive err σ) as [σ' settlement].
    specialize (Hmoved _ _ (Uploading (<[i:=settled settlement]> slots))
                  (<[i:=settled settlement]> slots)
                  (settled settlement) (then_deploy config GCLOUD_PROJECT σ')).
    by destruct (member_moved _ _ _ _ _).
  - destruct (slots !! i) as [[p| | |]|]; try done.
    destruct (deploy_step config GCLOUD_PROJECT σ p ev) as [[[σ' s] calls]|]; [|done].
    specialize (Hmoved _ _ (Deploying (<[i:=s]> slots)) (<[i:=s]> slots) s (then_respond σ')).
    by destruct (member_moved _ _ _ _ _).
Qed.

Lemma response_stays (st : State) (ys : list input) (r : nat) (q : Req) :
  Forall consistent (requests st) →
  requests st !! r = Some q →
  ended q ≠ Awaiting →
  ∃ q', requests (run config GCLOUD_PROJECT st ys) !! r = Some q'
        ∧ ended q' = ended q ∧ res q' = res q.
Proof.
  revert st q. induction ys as [|y ys IH]; intros st q Hst Hr Hended.
  - by exists q.
  - rewrite run_cons. pose proof (step_consistent st y Hst) as Hst'.
    assert (∃ q1, requests (step config GCLOUD_PROJECT st y) !! r = Some q1
                  ∧ ended q1 = ended q ∧ res q1 = res q) as (q1 & Hr1 & He1 & Hres1).
    { destruct y as [req|r' cb]; cbn.
      - destruct (githubAutoDeployer config req (process st)) as [[σ q0] calls].
        exists q. cbn. split; [|done]. by apply lookup_app_l_Some.
      - destruct (requests st !! r') as [q0|] eqn:Hr'; [|by exists q].
        pose proof (on_callback_ended (process st) q0 cb) as Hcb.
        destruct (on_callback config GCLOUD_PROJECT (process st) q0 cb) as [[σ q0'] calls].
        cbn in *. destruct (decide (r' = r)) as [->|Hne].
        + assert (q0 = q) as -> by congruence.
          exists q0'. split; [|apply Hcb; [|done]].
          * apply list_lookup_insert_eq. by eapply lookup_lt_Some.
          * exact (Forall_lookup_1 _ _ _ _ Hst Hr).
        + exists q. split; [|done]. by rewrite list_lookup_insert_ne. }
    destruct (IH _ q1 Hst' Hr1) as (q' & Hq' & He' & Hres'); [congruence|].
    exists q'. split; [done|]. split; congruence.
Qed.

(** X19: a response is final.  Once a request has been sent a response,
    whatever requests and callbacks follow, what went out through its [res]
    stays exactly that one response. *)
Theorem response_is_final
    (fs : gset string) (xs ys : list input) (r : nat) (q : Req) :
  requests (run config GCLOUD_PROJECT (start fs) xs) !! r = Some q →
  res q ≠ [] →
  ∃ q', requests (run config GCLOUD_PROJECT (start fs) (xs ++ ys)) !! r = Some q'
        ∧ res q' = res q.
Proof.
  intros Hr Hres.
  assert (Forall consistent (requests (run config GCLOUD_PROJECT (start fs) xs))) as Hst.
  { apply run_consistent. constructor. }
  assert (ended q ≠ Awaiting) as Hended.
  { intros Hq. pose proof (Forall_lookup_1 _ _ _ _ Hst Hr) as Hc.
    unfold consistent in Hc. rewrite Hq in Hc. by destruct Hc. }
  destruct (response_stays _ ys r q Hst Hr Hended) as (q' & Hq' & _ & Hres').
  exists q'. split; [|done]. unfold run in *. by rewrite fold_left_app.
Qed.

Lemma no_download_filter (calls : list call) :
  Forall (λ c, is_download c = false) calls →
  filter (λ c, is_download c = true) calls = [].
Proof.
  induction 1 as [|c calls Hc _ IH]; [done|].
  rewrite filter_cons_False; [done|]. by rewrite Hc.
Qed.

Lemma reject_chain_no_download (q : Req) (e : value) :
  Forall (λ c, is_download c = false) (reject_chain q e).2.
Proof.
  unfold reject_chain. destruct (ended q); [|by constructor..].
  destruct (catch_handler e); cbn; by repeat constructor.
Qed.

Lemma then_respond_no_download (σ : Process) (q : Req) (results : list value) :
  Forall (λ c, is_download c = false) (then_respond σ q results).2.
Proof.
  unfold then_respond. destruct (annotate _ _ _); [by constructor|].
  apply reject_chain_no_download.
Qed.

Lemma deployFunctions_no_download (σ : Process) (i : nat) (archives : list string) :
  Forall (λ c, is_download c = false)
         (deployFunctions config GCLOUD_PROJECT σ i archives).1.2.
Proof.
  revert i. induction archives as [|archive archives IH]; intros i; [by constructor|].
  cbn. destruct (currentDeployments σ !! i); [|by constructor].
  specialize (IH (S i)).
  destruct (deployFunctions config GCLOUD_PROJECT σ (S i) archives) as [[slots calls] thrown].
  unfold deployFunction. destruct (client σ); cbn in *; by constructor.
Qed.

Lemma then_deploy_no_download (σ : Process) (q : Req) (archives : list string) :
  Forall (λ c, is_download c = false) (then_deploy config GCLOUD_PROJECT σ q archives).2.
Proof.
  unfold then_deploy. pose proof (deployFunctions_no_download σ 0 archives) as Hd.
  destruct (deployFunctions config GCLOUD_PROJECT σ 0 archives) as [[slots calls] thrown].
  cbn in Hd. destruct thrown as [e|].
  - pose proof (reject_chain_no_download (at_ q (Deploying slots)) e) as Hr.
    destruct (reject_chain _ _). cbn in *. by apply Forall_app.
  - destruct (all_resolved slots) as [results|]; [|done].
    pose proof (then_respond_no_download σ (at_ q (Deploying slots)) results) as Hr.
    destruct (then_respond _ _ _). cbn in *. by apply Forall_app.
Qed.

Lemma then_upload_no_download (σ : Process) (q : Req) (archives : list string) :
  Forall (λ c, is_download c = false) (then_upload config GCLOUD_PROJECT σ q archives).2.
Proof.
  unfold then_upload. destruct archives as [|a archives].
  - apply then_deploy_no_download.
  - cbn -[fmap]. apply Forall_fmap, Forall_true. done.
Qed.

Lemma zipDirs_no_download (directory : string) (current : list Deployment.t) (σ : Process) :
  Forall (λ c, is_download c = false) (zipDirs directory current σ).2.
Proof.
  revert σ. induction current as [|d current IH]; intros σ; [by constructor|]. cbn.
  specialize (IH (next_random σ)).
  destruct (zipDirs directory current (next_random σ)) as [[σ' slots] calls].
  by constructor.
Qed.

Lemma member_moved_no_download {P R} (q : Req) (at_slots : stage)
    (slots : list (slot P R)) (s : slot P R) (next : Req → list R → Req * list call) :
  (∀ q1 values, Forall (λ c, is_download c = false) (next q1 values).2) →
  Forall (λ c, is_download c = false) (member_moved q at_slots slots s next).2.
Proof.
  intros Hnext. unfold member_moved.
  destruct (joined q slots s) as [[values|e]|]; [apply Hnext| |by constructor].
  apply reject_chain_no_download.
Qed.

Lemma start_poll_no_download (gcf : handle) (operation : value) :
  Forall (λ c, is_download c = false) (start_poll gcf operation).2.
Proof.
  unfold start_poll. destruct (pollOperation operation); by repeat constructor.
Qed.

Lemma deploy_step_no_download (σ σ' : Process) (p : deploying) (ev : deploy_callback) s calls :
  deploy_step config GCLOUD_PROJECT σ p ev = Some (σ', s, calls) →
  Forall (λ c, is_download c = false) calls.
Proof.
  intros Hstep. destruct p, ev; cbn in Hstep; try done.
  - unfold getClient_cb in Hstep.
    destruct (truthy err); injection Hstep as _ _ <-; by repeat constructor.
  - destruct (create_cb resource err operation) as [[a|e]|[resource' name']|e|].
    + pose proof (start_poll_no_download gcf a) as Hp.
      destruct (start_poll gcf a). by injection Hstep as _ _ <-.
    + injection Hstep as _ _ <-. constructor.
    + injection Hstep as _ _ <-. by repeat constructor.
    + injection Hstep as _ _ <-. by repeat constructor.
    + injection Hstep as _ _ <-. constructor.
  - destruct (update_cb err operation) as [a|e].
    + pose proof (start_poll_no_download gcf a) as Hp.
      destruct (start_poll gcf a). by injection Hstep as _ _ <-.
    + injection Hstep as _ _ <-. constructor.
  - destruct (pollOperation_cb err _operation) as [[a|e]|ms|e|];
      injection Hstep as _ _ <-; by repeat constructor.
  - pose proof (start_poll_no_download gcf operation) as Hp.
    destruct (start_poll gcf operation). by injection Hstep as _ _ <-.
Qed.

(** No callback starts a clone: a repository is fetched by the arrival of a
    request and by nothing else. *)
Lemma on_callback_no_download (σ : Process) (q : Req) (cb : callback) :
  Forall (λ c, is_download c = false) (on_callback config GCLOUD_PROJECT σ q cb).2.
Proof.
  unfold on_callback.
  destruct (at_stage q) as [e| |destination|slots|slots|slots];
    destruct cb as [err|i err|i err|i ev]; try by constructor.
  - destruct (downloadRepo_cb destination err) as [directory|e].
    + unfold then_zip.
      pose proof (zipDirs_no_download directory (currentDeployments σ) σ) as Hz.
      destruct (zipDirs directory (currentDeployments σ) σ) as [[σ' [|s slots]] calls];
        cbn in Hz; [|done].
      pose proof (then_upload_no_download σ' (at_ q (Zipping [])) []) as Hu.
      destruct (then_upload _ _ _ _ _). cbn in *. by apply Forall_app.
    + pose proof (reject_chain_no_download (at_ q Closed) e) as Hr.
      by destruct (reject_chain _ _).
  - destruct (slots !! i) as [[archive| | |]|]; try by constructor.
    pose proof (member_moved_no_download q
                  (Zipping (<[i:=settled (zipDir_cb archive err)]> slots))
                  (<[i:=settled (zipDir_cb archive err)]> slots)
                  (settled (zipDir_cb archive err)) (then_upload config GCLOUD_PROJECT σ)
                  (then_upload_no_download σ)) as Hm.
    by destruct (member_moved _ _ _ _ _).
  - destruct (slots !! i) as [[archive| | |]|]; try by constructor.
    destruct (uploadArchive archive err σ) as [σ' settlement].
    pose proof (member_moved_no_download q
                  (Uploading (<[i:=settled settlement]> slots))
                  (<[i:=settled settlement]> slots)
                  (settled settlement) (then_deploy config GCLOUD_PROJECT σ')
                  (then_deploy_no_download σ')) as Hm.
    by destruct (member_moved _ _ _ _ _).
  - destruct (slots !! i) as [[p| | |]|]; try by constructor.
    destruct (deploy_step config GCLOUD_PROJECT σ p ev) as [[[σ' s] calls]|] eqn:Hstep;
      [|by constructor].
    pose proof (member_moved_no_download q (Deploying (<[i:=s]> slots)) (<[i:=s]> slots) s
                  (then_respond σ') (then_respond_no_download σ')) as Hm.
    destruct (member_moved _ _ _ _ _). cbn in *. apply Forall_app. split; [|done].
    by eapply deploy_step_no_download.
Qed.

Lemma githubAutoDeployer_downloads (req : Request) (σ : Process) :
  (length (filter (λ c, is_download c = true) (githubAutoDeployer config req σ).2) ≤ 1)%nat.
Proof.
  unfold githubAutoDeployer.
  destruct (repository_of req) as [[repository repo]|]; [|cbn; lia].
  assert (∀ q e, length (filter (λ c, is_download c = true) (reject_chain q e).2) ≤ 1)%nat
    as Hreject.
  { intros q e. rewrite no_download_filter; [cbn; lia|]. apply reject_chain_no_download. }
  destruct (validateRequest config req) as [[]|e].
  2: { specialize (Hreject {| at_stage := Closed; ended := Awaiting; res := [] |} e).
       by destruct (reject_chain _ _). }
  destruct (getCurrentDeployments config repository σ) as [σ' [[]|e]].
  2: { specialize (Hreject {| at_stage := Closed; ended := Awaiting; res := [] |} e).
       by destruct (reject_chain _ _). }
  destruct (ToString repo) as [text|e].
  { cbn -[filter]. rewrite filter_cons_True by done. cbn. lia. }
  specialize (Hreject {| at_stage := Closed; ended := Awaiting; res := [] |} e).
  by destruct (reject_chain _ _).
Qed.

(** X20: the repository is fetched at most once for each request: in every
    state the process can reach, the clones started so far are no more than
    the requests received so far (no callback starts a clone, so a failed
    clone is never tried again). *)
Theorem one_download_per_request (fs : gset string) (xs : list input) :
  (length (filter (λ c, is_download c = true)
             (trace (run config GCLOUD_PROJECT (start fs) xs)))
   ≤ length (requests (run config GCLOUD_PROJECT (start fs) xs)))%nat.
Proof.
  assert (∀ st,
    (length (filter (λ c, is_download c = true) (trace st)) ≤ length (requests st))%nat →
    (length (filter (λ c, is_download c = true) (trace (run config GCLOUD_PROJECT st xs)))
     ≤ length (requests (run config GCLOUD_PROJECT st xs)))%nat) as Hrun.
  { induction xs as [|x xs IH]; intros st Hst; [done|].
    rewrite run_cons. apply IH. destruct x as [req|r cb]; cbn.
    - pose proof (githubAutoDeployer_downloads req (process st)) as Hd.
      destruct (githubAutoDeployer config req (process st)) as [[σ q] calls]. cbn in *.
      rewrite filter_app, !length_app. cbn. lia.
    - destruct (requests st !! r) as [q|]; [|done].
      pose proof (on_callback_no_download (process st) q cb) as Hd.
      destruct (on_callback config GCLOUD_PROJECT (process st) q cb) as [[σ q'] calls].
      cbn in *. rewrite filter_app, length_app, length_insert.
      rewrite (no_download_filter calls) by done. cbn. lia. }
  apply Hrun. cbn. lia.
Qed.

(** ** The archive and its URL *)

(** X21: for an archive made by [zipDir] from a token without a slash, the
    base name that the deployment puts into the source URL is the file name
    of the archive, [<token>.zip]: the deployment points at the object that
    the upload of that archive stored under its base name. *)
Theorem archive_url_names_the_archive (k : nat) (functionName : string) :
  Forall (λ c, is_slash c = false) (list_ascii_of_string (randomstring_generate k 13)) →
  path_base (zipDir_archive k) = randomstring_generate k 13 ++ ".zip"
  ∧ sourceArchiveUrl (deployFunction_resource config GCLOUD_PROJECT (zipDir_archive k) functionName)
    = "gs://" ++ Config.stageBucket config ++ "/" ++ randomstring_generate k 13 ++ ".zip".
Proof.
  intros Htoken.
  assert (path_base (zipDir_archive k) = randomstring_generate k 13 ++ ".zip") as Hbase.
  { unfold zipDir_archive.
    change ("/tmp/" ++ randomstring_generate k 13 ++ ".zip")
      with ("/tmp" ++ "/" ++ (randomstring_generate k 13 ++ ".zip")).
    apply path_base_file.
    - by destruct (randomstring_generate k 13).
    - rewrite list_ascii_of_string_append. apply Forall_app. split; [done|].
      by repeat constructor. }
  split; [done|]. cbn [deployFunction_resource sourceArchiveUrl]. by rewrite Hbase.
Qed.

(** ** After a failure *)

(** X23: a failure cuts the later stages off.  Once the chain of a request
    has ended while its archives are being made, or while they are being
    uploaded, the callbacks of the remaining archives or uploads call no
    collaborator and the request never reaches the next stage. *)
Theorem ended_chain_starts_no_later_stage (σ : Process) (q : Req) (cb : callback) :
  ended q ≠ Awaiting →
  (∀ slots, at_stage q = Zipping slots →
     (on_callback config GCLOUD_PROJECT σ q cb).2 = []
     ∧ ∃ slots', at_stage (on_callback config GCLOUD_PROJECT σ q cb).1.2 = Zipping slots'
                 ∧ length slots' = length slots)
  ∧ (∀ slots, at_stage q = Uploading slots →
     (on_callback config GCLOUD_PROJECT σ q cb).2 = []
     ∧ ∃ slots', at_stage (on_callback config GCLOUD_PROJECT σ q cb).1.2 = Uploading slots'
                 ∧ length slots' = length slots).
Proof.
  intros Hended.
  assert (∀ P R at_slots (slots : list (slot P R)) s next,
            member_moved q at_slots slots s next = (at_ q at_slots, [])) as Hmoved.
  { intros. unfold member_moved, joined. by destruct (ended q). }
  split; intros slots Hstage; unfold on_callback; rewrite Hstage.
  - destruct cb as [err|i err|i err|i ev]; try (split; [done|by exists slots]).
    destruct (slots !! i) as [[archive| | |]|]; try (split; [done|by exists slots]).
    rewrite Hmoved. cbn. split; [done|]. eexists. split; [done|]. apply length_insert.
  - destruct cb as [err|i err|i err|i ev]; try (split; [done|by exists slots]).
    destruct (slots !! i) as [[archive| | |]|]; try (split; [done|by exists slots]).
    destruct (uploadArchive archive err σ) as [σ' settlement].
    rewrite Hmoved. cbn. split; [done|]. eexists. split; [done|]. apply length_insert.
Qed.

(** X24: a failure does not stop the other deployments.  After the chain of
    a request has ended, a deployment that was under way goes on exactly as
    its own callback says (it makes its next call, and may still replace
    [client]); only the response of the request is no longer touched. *)
Theorem abandoned_deployment_keeps_running
    (σ σ' : Process) (q : Req) (slots : list (slot deploying value)) (i : nat)
    (p : deploying) (ev : deploy_callback) (s : slot deploying value) (calls : list call) :
  ended q ≠ Awaiting →
  at_stage q = Deploying slots →
  slots !! i = Some (Pending p) →
  deploy_step config GCLOUD_PROJECT σ p ev = Some (σ', s, calls) →
  on_callback config GCLOUD_PROJECT σ q (deploy_event i ev)
  = (σ', {| at_stage := Deploying (<[i := s]> slots); ended := ended q; res := res q |},
     calls).
Proof.
  intros Hended Hstage Hi Hstep. unfold on_callback. rewrite Hstage, Hi, Hstep.
  unfold member_moved, joined.
  destruct (ended q) eqn:E; [done|..]; unfold at_; cbn; by rewrite E, app_nil_r.
Qed.

(** ** The archives *)

Lemma zipDirs_calls_length (directory : string) (current : list Deployment.t) (σ : Process) :
  length (zipDirs directory current σ).2 = length current.
Proof.
  revert σ. induction current as [|d current IH]; intros σ; [done|]. cbn.
  specialize (IH (next_random σ)).
  destruct (zipDirs directory current (next_random σ)) as [[σ' slots] calls].
  cbn in *. by rewrite IH.
Qed.

(** X25: the archives are made for the deployments that
    [config.currentDeployments] holds when the clone finishes (not for those
    the request matched when it arrived): one [zipFolder] for each of them, in
    their order, from the directory of the clone joined with the deployment's
    path, each to the path of a newly drawn token. *)
Theorem archives_follow_current_deployments
    (σ : Process) (q : Req) (destination : string) (err : value) :
  at_stage q = Downloading destination →
  truthy err = false →
  currentDeployments σ ≠ [] →
  length (on_callback config GCLOUD_PROJECT σ q (downloaded err)).2
    = length (currentDeployments σ)
  ∧ random_calls (on_callback config GCLOUD_PROJECT σ q (downloaded err)).1.1
    = random_calls σ + length (currentDeployments σ)
  ∧ ∀ i d, currentDeployments σ !! i = Some d →
      (on_callback config GCLOUD_PROJECT σ q (downloaded err)).2 !! i
      = Some (zipFolder (path_join destination (Deployment.path d))
                        (zipDir_archive (random_calls σ + i))).
Proof.
  intros Hstage Herr Hcurrent. unfold on_callback, downloadRepo_cb. rewrite Hstage, Herr.
  unfold then_zip.
  destruct (zipDirs_spec destination (currentDeployments σ) σ) as (Hrandom & Hlen & Hidx).
  pose proof (zipDirs_calls_length destination (currentDeployments σ) σ) as Hcalls.
  destruct (zipDirs destination (currentDeployments σ) σ) as [[σ' slots] calls].
  cbn in Hrandom, Hlen, Hidx, Hcalls.
  destruct slots as [|s slots].
  { destruct (currentDeployments σ); [done|]. cbn in Hlen. lia. }
  cbn. split_and!; [done|done|]. intros i d Hi. by destruct (Hidx i d Hi).
Qed.

(** ** The first failure *)

(** X28: the first archive or upload that fails answers the request.  While
    the chain is awaited, an archive whose callback is given a truthy [err],
    or an upload whose promise is rejected with anything but [undefined] and
    [null], ends the chain in the [.catch], and the response of that error
    goes out in the same turn; no collaborator is called.  An upload rejected
    with [undefined] or [null] ends the chain as well, but the [.catch]
    throws and the request is left without a response. *)
Theorem archive_or_upload_failure_answers
    (σ : Process) (q : Req) (i : nat) (err : value) :
  ended q = Awaiting →
  res q = [] →
  (∀ slots archive,
     at_stage q = Zipping slots → slots !! i = Some (Pending archive) →
     truthy err = true →
     on_callback config GCLOUD_PROJECT σ q (zipped i err)
     = (σ, {| at_stage := Zipping (<[i := Failed err]> slots); ended := Caught err;
              res := [error_response err] |}, []))
  ∧ (∀ slots archive,
       at_stage q = Uploading slots → slots !! i = Some (Pending archive) →
       is_nullish err = false →
       on_callback config GCLOUD_PROJECT σ q (uploaded i (Some err))
       = (σ, {| at_stage := Uploading (<[i := Failed err]> slots); ended := Caught err;
                res := [error_response err] |}, []))
  ∧ (∀ slots archive,
       at_stage q = Uploading slots → slots !! i = Some (Pending archive) →
       is_nullish err = true →
       ∃ thrown,
         on_callback config GCLOUD_PROJECT σ q (uploaded i (Some err))
         = (σ, {| at_stage := Uploading (<[i := Failed err]> slots); ended := Caught err;
                  res := [] |}, [uncaught thrown])).
Proof.
  intros Hended Hres. split_and!; intros slots archive Hstage Hi Herr;
    unfold on_callback; rewrite Hstage, Hi.
  - unfold zipDir_cb. rewrite Herr. cbn. unfold member_moved, joined. rewrite Hended.
    rewrite reject_chain_awaiting; [|done|by apply truthy_not_nullish].
    cbn. by rewrite Hres.
  - pose proof (uploadArchive_process archive (Some err) σ) as Hσ.
    destruct (uploadArchive archive (Some err) σ) as [σ' settlement] eqn:Hup.
    cbn in Hσ. subst σ'. cbn in Hup. injection Hup as _ <-.
    cbn. unfold member_moved, joined. rewrite Hended.
    rewrite reject_chain_awaiting by done. cbn. by rewrite Hres.
  - pose proof (uploadArchive_process archive (Some err) σ) as Hσ.
    destruct (uploadArchive archive (Some err) σ) as [σ' settlement] eqn:Hup.
    cbn in Hσ. subst σ'. cbn in Hup. injection Hup as _ <-.
    cbn. unfold member_moved, joined. rewrite Hended.
    destruct (get_prop_nullish err "stack" Herr) as [thrown Hthrown].
    exists thrown. unfold reject_chain, catch_handler. cbn. rewrite Hended, Hthrown.
    cbn. by rewrite Hres.
Qed.

(** X29: the first deployment that is rejected answers the request.  While
    the chain is awaited, a callback that rejects a deployment ends the chain
    in the [.catch]: the response of the error the deployment was rejected
    with goes out in the same turn, whatever the other deployments are
    doing. *)
Theorem deployment_failure_answers
    (σ σ' : Process) (q : Req) (slots : list (slot deploying value)) (i : nat)
    (p : deploying) (ev : deploy_callback) (e : value) (calls : list call) :
  ended q = Awaiting →
  res q = [] →
  at_stage q = Deploying slots →
  slots !! i = Some (Pending p) →
  deploy_step config GCLOUD_PROJECT σ p ev = Some (σ', Failed e, calls) →
  on_callback config GCLOUD_PROJECT σ q (deploy_event i ev)
  = (σ', {| at_stage := Deploying (<[i := Failed e]> slots); ended := Caught e;
            res := [error_response e] |}, calls).
Proof.
  intros Hended Hres Hstage Hi Hstep. unfold on_callback. rewrite Hstage, Hi, Hstep.
  unfold member_moved, joined. rewrite Hended.
  rewrite reject_chain_awaiting; [|done|by eapply deploy_step_failed].
  cbn. by rewrite Hres, app_nil_r.
Qed.

(** X30: every callback of the Cloud Functions API that is given a truthy
    [err] rejects its deployment with that very [err] and makes no further
    call: the reply to the request for credentials, the reply of
    [functions.create] unless the error says [alreadyExists], the reply of
    [functions.update], and the reply of [operations.get]. *)
Theorem deploy_step_rejects_on_error (σ : Process) (err : value) :
  truthy err = true →
  (∀ archive functionName,
     deploy_step config GCLOUD_PROJECT σ (AwaitClient archive functionName) (authenticated err)
     = Some (σ, Failed err, []))
  ∧ (∀ gcf resource operation,
       ¬ first_reason err "alreadyExists" →
       deploy_step config GCLOUD_PROJECT σ (AwaitCreate gcf resource) (created err operation)
       = Some (σ, Failed err, []))
  ∧ (∀ gcf resource operation,
       deploy_step config GCLOUD_PROJECT σ (AwaitUpdate gcf resource) (updated err operation)
       = Some (σ, Failed err, []))
  ∧ (∀ gcf operation _operation,
       deploy_step config GCLOUD_PROJECT σ (AwaitOperation gcf operation) (got err _operation)
       = Some (σ, Failed err, [])).
Proof.
  intros Herr. split_and!.
  - intros archive functionName. cbn. unfold getClient_cb. by rewrite Herr.
  - intros gcf resource operation Hreason. cbn.
    by rewrite create_cb_other_error.
  - intros gcf resource operation. cbn. unfold update_cb. by rewrite Herr.
  - intros gcf operation _operation. cbn. unfold pollOperation_cb. by rewrite Herr.
Qed.

(** ** A request nobody calls back *)

Lemma nothing_pending_takes_no_callback (σ : Process) (q : Req) (cb : callback) :
  nothing_pending q → on_callback config GCLOUD_PROJECT σ q cb = (σ, q, []).
Proof.
  unfold nothing_pending, on_callback.
  destruct (at_stage q) as [e| |destination|slots|slots|slots];
    destruct cb as [err|i err|i err|i ev]; try done;
    intros Hq; destruct (slots !! i) as [[p| | |]|] eqn:Hi; try done;
    by destruct (Hq i p).
Qed.

Lemma nothing_pending_stays (st : State) (ys : list input) (r : nat) (q : Req) :
  requests st !! r = Some q → nothing_pending q →
  requests (run config GCLOUD_PROJECT st ys) !! r = Some q.
Proof.
  revert st. induction ys as [|y ys IH]; intros st Hr Hq; [done|].
  rewrite run_cons. apply IH; [|done].
  destruct y as [req|r' cb]; cbn.
  - destruct (githubAutoDeployer config req (process st)) as [[σ q0] calls].
    cbn. by apply lookup_app_l_Some.
  - destruct (requests st !! r') as [q0|] eqn:Hr'; [|done].
    destruct (decide (r' = r)) as [->|Hne].
    + assert (q0 = q) as -> by congruence.
      rewrite nothing_pending_takes_no_callback by done. cbn.
      by rewrite list_insert_id.
    + destruct (on_callback config GCLOUD_PROJECT (process st) q0 cb) as [[σ q0'] calls].
      cbn. by rewrite list_lookup_insert_ne.
Qed.

End Properties.

(** * Examples on the demo platform *)

(** C10 at a request whose body is the empty object. *)
Lemma githubAutoDeployer_throws_without_owner_witness :
  ∃ e, githubAutoDeployer (H := Demo.lucky) Demo.config (Demo.unsigned (VObj [])) (boot ∅)
         = (boot ∅, {| at_stage := Threw e; ended := Awaiting; res := [] |}, [])
       ∧ is_nullish e = false
       ∧ ∀ σ' cb, on_callback (H := Demo.lucky) Demo.config Demo.project σ'
                    {| at_stage := Threw e; ended := Awaiting; res := [] |} cb
                  = (σ', {| at_stage := Threw e; ended := Awaiting; res := [] |}, []).
Proof.
  apply (githubAutoDeployer_throws_without_owner Demo.config Demo.project
           (Demo.unsigned (VObj [])) (boot ∅)).
  left. intros x [= <-]. reflexivity.
Defined.

(** C1, at the failing input: a request whose body is the empty object and
    which has no signature header.  Its signature does not match (validation
    rejects it as unauthorized), yet it gets no 403: the handler reads
    [req.body.repository.owner.name] on line 236, before it validates and
    outside its promise chain, so it throws and sends nothing, then or
    later. *)
Lemma mismatch_without_repository_sends_no_403 :
  validateRequest (H := Demo.lucky) Demo.config (Demo.unsigned (VObj []))
    = Rejected Unauthorized
  ∧ githubAutoDeployer (H := Demo.lucky) Demo.config (Demo.unsigned (VObj [])) (boot ∅)
    = (boot ∅,
       {| at_stage := Threw (TypeError "Cannot read property 'owner' of undefined");
          ended := Awaiting; res := [] |},
       [])
  ∧ ∀ ys, requests (run (H := Demo.lucky) Demo.config Demo.project (start ∅)
                      (Incoming (Demo.unsigned (VObj [])) :: ys)) !! 0
          = Some {| at_stage := Threw (TypeError "Cannot read property 'owner' of undefined");
                    ended := Awaiting; res := [] |}.
Proof.
  split_and!; [reflexivity..|]. intros ys. rewrite run_cons.
  by apply nothing_pending_stays.
Qed.


(** C8 as stated fails: when the generator draws the same 13 characters
    twice, the two archives of one request are written to the same path. *)
Lemma same_token_same_archive_path :
  zipDirs (H := Demo.unlucky) "/tmp/site" [Demo.functionA; Demo.functionB] (boot ∅)
  = ({| client := None; currentDeployments := []; files := ∅;
        clients_made := 0; random_calls := 2 |},
     [Pending "/tmp/aaaaaaaaaaaaa.zip"; Pending "/tmp/aaaaaaaaaaaaa.zip"],
     [zipFolder "/tmp/site/functions/a" "/tmp/aaaaaaaaaaaaa.zip";
      zipFolder "/tmp/site/functions/b" "/tmp/aaaaaaaaaaaaa.zip"]).
Proof. reflexivity. Qed.

(** C7, at the failing input: a push that matches two deployments.  Both
    are created; the operation of the first one finishes with an error, the
    operation of the second one with a response.  The deploy step of the
    first deployment has failed, but its promise is never rejected (the
    callback of [operations.get] throws on [_operation.response.name]), so
    the [Promise.all] never settles: neither the [.catch] nor the last
    [.then] runs and the client gets no response, whatever happens later. *)
Theorem failed_operation_leaves_the_request_unanswered :
  let st := run (H := Demo.lucky) Demo.config Demo.project (start ∅)
              Demo.first_operation_fails in
  requests st = [Demo.after_first_operation_fails]
  ∧ res Demo.after_first_operation_fails = []
  ∧ ended Demo.after_first_operation_fails = Awaiting
  ∧ last (trace st) = Some (uncaught (TypeError "Cannot read property 'name' of undefined"))
  ∧ ∀ ys, requests (run (H := Demo.lucky) Demo.config Demo.project (start ∅)
                      (Demo.first_operation_fails ++ ys)%list) !! 0
          = Some Demo.after_first_operation_fails.
Proof.
  cbv zeta. split_and!; [vm_compute; reflexivity|done|done|vm_compute; reflexivity|].
  intros ys. unfold run. rewrite fold_left_app. apply nothing_pending_stays.
  - vm_compute. reflexivity.
  - intros [|[|i]] p; done.
Qed.

(** X26 at a request whose second deployment has failed in
    [functions.create] while the first one is still being polled. *)
Lemma at_most_one_response_witness :
  (length (res Demo.after_second_create_fails) ≤ 1)%nat
  ∧ (has_failed Demo.after_second_create_fails →
     ∃ e, ended Demo.after_second_create_fails = Caught e)
  ∧ (∀ e, ended Demo.after_second_create_fails = Caught e →
          res Demo.after_second_create_fails
          = if is_nullish e then [] else [error_response e])
  ∧ (ended Demo.after_second_create_fails = Succeeded →
     ∃ slots results current results',
       at_stage Demo.after_second_create_fails = Deploying slots ∧
       all_resolved slots = Some results ∧
       annotate current 0 results = Normal results' ∧
       res Demo.after_second_create_fails = [Response (VNum 200) (VArr results')])
  ∧ (ended Demo.after_second_create_fails = Awaiting →
     res Demo.after_second_create_fails = []
     ∧ none_failed Demo.after_second_create_fails).
Proof.
  apply (at_most_one_response (H := Demo.lucky) Demo.config Demo.project
           ∅ Demo.second_create_fails 0 Demo.after_second_create_fails).
  vm_compute. reflexivity.
Defined.

(** C9, at the failing input: a first request that matches two deployments.
    Both calls of [getClient] find [client] unset and both ask for the
    credentials; the first reply sets [client] to a new client, the second
    reply makes another client and puts it in the place of the first, and the
    two deployments go on with different clients. *)
Theorem getClient_makes_a_client_for_each_caller :
  let st0 := run (H := Demo.lucky) Demo.config Demo.project (start ∅) Demo.uploaded_both in
  let st1 := step (H := Demo.lucky) Demo.config Demo.project st0 (Demo.authenticate 0) in
  let st2 := step (H := Demo.lucky) Demo.config Demo.project st1 (Demo.authenticate 1) in
  client (process st0) = None
  ∧ drop 5 (trace st0) = [getApplicationDefault; getApplicationDefault]
  ∧ client (process st1) = Some 0
  ∧ client (process st2) = Some 1
  ∧ clients_made (process st2) = 2
  ∧ drop 7 (trace st2)
    = [functions_create 0 Demo.resourceA "projects/my-project/locations/us-central1";
       functions_create 1 Demo.resourceB "projects/my-project/locations/us-central1"]
  ∧ deployFunction Demo.config Demo.project (process st2) "/tmp/ccccccccccccc.zip" "fnA"
    = (Pending (AwaitCreate 1
         (deployFunction_resource Demo.config Demo.project "/tmp/ccccccccccccc.zip" "fnA")),
       [functions_create 1
          (deployFunction_resource Demo.config Demo.project "/tmp/ccccccccccccc.zip" "fnA")
          "projects/my-project/locations/us-central1"]).
Proof. cbv zeta. split_and!; vm_compute; reflexivity. Qed.

(** A push that is deployed: both operations finish with a response, and the
    request is answered 200 with the two annotated results. *)
Example both_deployments_succeed :
  requests
    (run (H := Demo.lucky) Demo.config Demo.project (start ∅)
       (Demo.uploaded_both ++
        [Demo.authenticate 0; Demo.authenticate 1;
         Callback 0 (deploy_event 0 (created VNull Demo.operation1));
         Callback 0 (deploy_event 1 (created (VObj [("errors", VArr [VObj [("reason", VStr "alreadyExists")]])]) VUndefined));
         Callback 0 (deploy_event 1 (updated VNull Demo.operation2));
         Callback 0 (deploy_event 0 (got VNull Demo.operation1));
         Callback 0 (deploy_event 0 timed_out);
         Callback 0 (deploy_event 0 (got VNull (Demo.done_with (VObj [("name", VStr "fnA")]))));
         Callback 0 (deploy_event 1 (got VNull (Demo.done_with (VObj [("name", VStr "fnB")]))))])%list)
  = [{| at_stage := Deploying [Resolved (VObj [("name", VStr "fnA")]);
                               Resolved (VObj [("name", VStr "fnB")])];
        ended := Succeeded;
        res := [Response (VNum 200)
                  (VArr [VObj [("name", VStr "fnA");
                               ("deployment", Deployment.to_value Demo.functionA)];
                         VObj [("name", VStr "fnB");
                               ("deployment", Deployment.to_value Demo.functionB)]])] |}].
Proof. vm_compute. reflexivity. Qed.

(** A signed push to a repository that no deployment names is answered 500. *)
Example unmatched_push :
  githubAutoDeployer (H := Demo.lucky) Demo.config
    (Demo.signed (Demo.push_body "octo" "unknown")) (boot ∅)
  = ({| client := None; currentDeployments := []; files := ∅;
        clients_made := 0; random_calls := 0 |},
     {| at_stage := Closed;
        ended := Caught (Error "No matching deployments for octo/unknown.");
        res := [Response (VNum 500) (VStr "No matching deployments for octo/unknown.")] |},
     []).
Proof. vm_compute. reflexivity. Qed.

(** C6 at an error of [functions.create] whose first reason is
    [alreadyExists]: the update is called with the same resource and its
    name. *)
Lemma createOrUpdateFunction_create_then_update_witness :
  create_cb Demo.resourceA Demo.already_exists VUndefined
    = Continue (Demo.resourceA, name Demo.resourceA)
  ∧ deploy_step (H := Demo.lucky) Demo.config Demo.project (boot ∅)
      (AwaitCreate 0 Demo.resourceA)
      (created Demo.already_exists VUndefined)
    = Some (boot ∅, Pending (AwaitUpdate 0 Demo.resourceA),
            [functions_update 0 Demo.resourceA (name Demo.resourceA)]).
Proof.
  apply (proj1 (createOrUpdateFunction_create_then_update (H := Demo.lucky)
                  Demo.config Demo.project
                  (boot ∅) 0 Demo.resourceA Demo.already_exists VUndefined)).
  - reflexivity.
  - exists (VArr [VObj [("reason", VStr "alreadyExists")]]),
           (VObj [("reason", VStr "alreadyExists")]).
    split_and!; reflexivity.
Defined.

(** C4 at a repository that no configured deployment names. *)
Lemma getCurrentDeployments_selects_matches_witness :
  (getCurrentDeployments Demo.config "octo/unknown" (boot ∅)).2
    = Rejected (Error "No matching deployments for octo/unknown.")
  ∧ ∀ req repo,
      repository_of (H := Demo.lucky) req = Normal ("octo/unknown", repo) →
      (githubAutoDeployer (H := Demo.lucky) Demo.config req (boot ∅)).2 = []
      ∧ (∀ σ' cb,
           on_callback (H := Demo.lucky) Demo.config Demo.project σ'
             (githubAutoDeployer (H := Demo.lucky) Demo.config req (boot ∅)).1.2 cb
           = (σ', (githubAutoDeployer (H := Demo.lucky) Demo.config req (boot ∅)).1.2, []))
      ∧ (validateRequest (H := Demo.lucky) Demo.config req = Fulfilled () →
         (githubAutoDeployer (H := Demo.lucky) Demo.config req (boot ∅)).1.2
         = {| at_stage := Closed;
              ended := Caught (Error "No matching deployments for octo/unknown.");
              res := [Response (VNum 500)
                        (VStr "No matching deployments for octo/unknown.")] |}).
Proof.
  apply (proj2 (proj2 (proj2 (proj2
           (getCurrentDeployments_selects_matches (H := Demo.lucky) Demo.config Demo.project
              "octo/unknown" (boot ∅)))))).
  reflexivity.
Defined.

(** * Further properties and instances *)

(** ** The local files *)

(** X16: given the path of a file, the inner [cleanup] removes that file and
    no other, and when there is no such file it changes nothing (the error of
    [unlinkSync] is swallowed); given anything that is not a string it
    changes nothing either. *)
Theorem cleanup_removes_only_the_path (p : string) (fs : gset string) :
  cleanup (VStr p) fs = fs ∖ {[p]}
  ∧ (p ∉ cleanup (VStr p) fs)
  ∧ (∀ x, x ≠ p → (x ∈ cleanup (VStr p) fs ↔ x ∈ fs))
  ∧ (p ∉ fs → cleanup (VStr p) fs = fs)
  ∧ (∀ v, (∀ s, v ≠ VStr s) → cleanup v fs = fs).
Proof.
  assert (∀ x, x ∈ cleanup (VStr p) fs ↔ x ∈ fs ∧ x ≠ p) as Hc.
  { intros x. unfold cleanup, unlinkSync. case_bool_decide as Hp.
    - by rewrite elem_of_difference, elem_of_singleton.
    - split; [|by intros [? _]]. intros Hx. split; [done|]. by intros ->. }
  split_and!.
  - apply set_eq. intros x. by rewrite Hc, elem_of_difference, elem_of_singleton.
  - rewrite Hc. by intros [_ ?].
  - intros x Hx. rewrite Hc. split; [by intros [? _]|done].
  - intros Hp. apply set_eq. intros x. rewrite Hc. split; [by intros [? _]|].
    intros Hx. split; [done|]. by intros ->.
  - intros v Hv. destruct v; try done. by destruct (Hv s).
Qed.

(** ** Base names *)

Lemma until_slash_no_slash (l : list ascii) :
  Forall (λ c, is_slash c = false) (until_slash l).
Proof.
  induction l as [|c l IH]; cbn; [constructor|].
  destruct (is_slash c) eqn:Hc; by constructor.
Qed.

Lemma until_slash_all (l : list ascii) :
  Forall (λ c, is_slash c = false) l → until_slash l = l.
Proof. induction 1 as [|c l Hc _ IH]; cbn; [done|]. by rewrite Hc, IH. Qed.

Lemma drop_slashes_no_slash (l : list ascii) :
  Forall (λ c, is_slash c = false) l → drop_slashes l = l.
Proof. destruct 1 as [|c l Hc _]; cbn; [done|]. by rewrite Hc. Qed.

Lemma path_base_has_no_slash (p : string) :
  Forall (λ c, is_slash c = false) (list_ascii_of_string (path_base p))
  ∧ path_base (path_base p) = path_base p.
Proof.
  assert (Forall (λ c, is_slash c = false) (list_ascii_of_string (path_base p))) as Hbase.
  { unfold path_base. rewrite list_ascii_of_string_of_list_ascii.
    apply Forall_rev, until_slash_no_slash. }
  split; [done|]. unfold path_base at 1.
  rewrite drop_slashes_no_slash, until_slash_all by by apply Forall_rev.
  by rewrite rev_involutive, string_of_list_ascii_of_string.
Qed.

(** X22: whatever the archive path, the source URL that [deployFunction]
    builds is [gs://<stageBucket>/<base>] with a base name that contains no
    slash, so it names an object directly under the bucket; and the directory
    of the archive plays no part in it: the base name alone gives the same
    URL. *)
Theorem source_url_is_directly_under_the_bucket
    (config : Config.t) (GCLOUD_PROJECT : option string) (archive functionName : string) :
  ∃ base,
    sourceArchiveUrl (deployFunction_resource config GCLOUD_PROJECT archive functionName)
    = "gs://" ++ Config.stageBucket config ++ "/" ++ base
    ∧ Forall (λ c, is_slash c = false) (list_ascii_of_string base)
    ∧ deployFunction_resource config GCLOUD_PROJECT base functionName
      = deployFunction_resource config GCLOUD_PROJECT archive functionName.
Proof.
  exists (path_base archive). destruct (path_base_has_no_slash archive) as [Hslash Hidem].
  split_and!; [done|done|]. unfold deployFunction_resource. by rewrite Hidem.
Qed.

(** ** Instances on the demo platform *)

(** X1 at the signed push to [octo/site]. *)
Lemma matching_push_starts_one_download_witness :
  ∃ text,
    ToString (H := Demo.lucky) (VStr "site") = Normal text
    ∧ githubAutoDeployer (H := Demo.lucky) Demo.config Demo.push (boot ∅)
      = (set_currentDeployments
           (filter (λ d, Deployment.repository d = "octo/site")
                   (Config.deployments Demo.config)) (boot ∅),
         {| at_stage := Downloading ("/tmp/" ++ text); ended := Awaiting; res := [] |},
         [downloadGitRepo "octo/site" ("/tmp/" ++ text)]).
Proof.
  apply (matching_push_starts_one_download (H := Demo.lucky) Demo.config
           Demo.push (boot ∅) "octo/site" (VStr "site")).
  - reflexivity.
  - reflexivity.
  - vm_compute. discriminate.
Defined.

(** X2 at the push to [octo/site]. *)
Lemma repository_of_readable_body_witness :
  repository_of (H := Demo.lucky) Demo.push
    = Normal ("octo" ++ "/" ++ "site",
              property (VObj [("name", VStr "site"); ("owner", VObj [("name", VStr "octo")])])
                       "name")
  ∧ (property (VObj [("name", VStr "octo")]) "name" = VUndefined →
     property (VObj [("name", VStr "site"); ("owner", VObj [("name", VStr "octo")])]) "name"
       = VUndefined →
     repository_of (H := Demo.lucky) Demo.push = Normal ("undefined/undefined", VUndefined)).
Proof.
  apply (repository_of_readable_body (H := Demo.lucky) Demo.push
           (VObj [("name", VStr "site"); ("owner", VObj [("name", VStr "octo")])])
           (VObj [("name", VStr "octo")]) "octo" "site"); reflexivity.
Defined.

(** X3 at the unsigned push to [octo/site]. *)
Lemma validateRequest_rejects_without_header_witness :
  ∃ e, validateRequest (H := Demo.lucky) Demo.config
         (Demo.unsigned (Demo.push_body "octo" "site")) = Rejected e
       ∧ (is_Some (JSON_stringify (Platform := Demo.lucky) (Demo.push_body "octo" "site")) →
          e = Unauthorized)
       ∧ property e "message" ≠ VUndefined.
Proof.
  apply (validateRequest_rejects_without_header (H := Demo.lucky) Demo.config
           (Demo.unsigned (Demo.push_body "octo" "site"))).
  reflexivity.
Defined.

(** X5 at a clone that failed. *)
Lemma download_failure_ends_the_request_witness :
  on_callback (H := Demo.lucky) Demo.config Demo.project (boot ∅) Demo.downloading
    (downloaded (VObj (Demo.failure "clone failed")))
  = (boot ∅,
     {| at_stage := Closed; ended := Caught (VObj (Demo.failure "clone failed"));
        res := [error_response (VObj (Demo.failure "clone failed"))] |}, []).
Proof.
  apply (download_failure_ends_the_request (H := Demo.lucky) Demo.config Demo.project
           (boot ∅) Demo.downloading "/tmp/site" (VObj (Demo.failure "clone failed")));
    reflexivity.
Defined.

(** X6 at a clone that succeeded in a process whose current deployments are
    empty. *)
Lemma download_with_no_current_deployments_witness :
  on_callback (H := Demo.lucky) Demo.config Demo.project (boot ∅) Demo.downloading
    (downloaded VNull)
  = (boot ∅, {| at_stage := Deploying []; ended := Succeeded;
                res := [Response (VNum 200) (VArr [])] |}, []).
Proof.
  apply (download_with_no_current_deployments (H := Demo.lucky) Demo.config Demo.project
           (boot ∅) Demo.downloading "/tmp/site" VNull); reflexivity.
Defined.

(** X7 at the second of two archives, finished last. *)
Lemma last_archive_starts_the_uploads_witness :
  (∀ archives,
     all_resolved (<[1 := Resolved "/tmp/b.zip"]>
                     [Resolved "/tmp/a.zip"; Pending "/tmp/b.zip"]) = Some archives →
     on_callback (H := Demo.lucky) Demo.config Demo.project (boot ∅) Demo.zipping
       (zipped 1 VNull)
     = (boot ∅,
        {| at_stage := Uploading (Pending <$> archives); ended := Awaiting;
           res := res Demo.zipping |},
        bucket_upload <$> archives)
     ∧ length archives = length [Resolved (P := string) "/tmp/a.zip"; Pending "/tmp/b.zip"]
     ∧ ∀ j a, archives !! j = Some a
              ↔ <[1 := Resolved "/tmp/b.zip"]>
                  [Resolved "/tmp/a.zip"; Pending "/tmp/b.zip"] !! j = Some (Resolved a))
  ∧ (all_resolved (<[1 := Resolved "/tmp/b.zip"]>
                     [Resolved "/tmp/a.zip"; Pending "/tmp/b.zip"]) = None →
     on_callback (H := Demo.lucky) Demo.config Demo.project (boot ∅) Demo.zipping
       (zipped 1 VNull)
     = (boot ∅,
        {| at_stage := Zipping (<[1 := Resolved "/tmp/b.zip"]>
                                  [Resolved "/tmp/a.zip"; Pending "/tmp/b.zip"]);
           ended := Awaiting; res := res Demo.zipping |}, [])).
Proof.
  apply (last_archive_starts_the_uploads (H := Demo.lucky) Demo.config Demo.project
           (boot ∅) Demo.zipping [Resolved "/tmp/a.zip"; Pending "/tmp/b.zip"] 1
           "/tmp/b.zip" VNull); reflexivity.
Defined.

(** X8 at two replies that report the operation as running. *)
Lemma poll_goes_on_while_not_done_witness :
  run (H := Demo.lucky) Demo.config Demo.project Demo.polling_state
    (concat (poll_round 0 0 <$> [(VNull, Demo.operation1); (VUndefined, Demo.operation2)]))
  = {| process := process Demo.polling_state; requests := requests Demo.polling_state;
       trace := trace Demo.polling_state ++
                concat (replicate
                          (length [(VNull, Demo.operation1); (VUndefined, Demo.operation2)])
                          [setTimeout 500;
                           operations_get 0 (property Demo.operation1 "name")]) |}.
Proof.
  apply (poll_goes_on_while_not_done (H := Demo.lucky) Demo.config Demo.project
           Demo.polling_state 0 0 Demo.polling
           [Pending (AwaitOperation 0 Demo.operation1)] 0 Demo.operation1
           [(VNull, Demo.operation1); (VUndefined, Demo.operation2)]);
    try reflexivity.
  repeat constructor.
Defined.

(** X9 at a create that called back with nothing. *)
Lemma create_without_operation_answers_500_witness :
  ∃ message,
    on_callback (H := Demo.lucky) Demo.config Demo.project Demo.matchedA Demo.creating
      (deploy_event 0 (created VNull VUndefined))
    = (Demo.matchedA,
       {| at_stage := Deploying (<[0 := Failed (TypeError message)]>
                                   [Pending (AwaitCreate 0 Demo.resourceA)]);
          ended := Caught (TypeError message);
          res := [Response (VNum 500) (VStr message)] |}, []).
Proof.
  apply (create_without_operation_answers_500 (H := Demo.lucky) Demo.config Demo.project
           Demo.matchedA Demo.creating [Pending (AwaitCreate 0 Demo.resourceA)] 0 0
           Demo.resourceA VNull VUndefined); reflexivity.
Defined.

(** X10 at one result that is an object. *)
Lemma annotate_objects_witness :
  ∃ results',
    annotate [Demo.functionA] 0 [Demo.deployedA] = Normal results'
    ∧ length results' = length [Demo.deployedA]
    ∧ ∀ j r, [Demo.deployedA] !! j = Some r →
        ∃ r', results' !! j = Some r'
              ∧ property r' "deployment"
                = match [Demo.functionA] !! j with
                  | Some d => Deployment.to_value d
                  | None => VUndefined
                  end
              ∧ ∀ k, k ≠ "deployment" → property r' k = property r k.
Proof.
  apply (annotate_objects [Demo.functionA] [Demo.deployedA]).
  by repeat constructor.
Defined.

(** X11 at a result that is a string. *)
Lemma primitive_result_answers_500_witness :
  ∃ message,
    then_respond Demo.matchedA Demo.polling [VStr "done"]
    = ({| at_stage := at_stage Demo.polling; ended := Caught (TypeError message);
          res := [Response (VNum 500) (VStr message)] |}, []).
Proof.
  apply (primitive_result_answers_500 Demo.matchedA Demo.polling [VStr "done"]);
    try reflexivity.
  - by apply Exists_cons_hd.
  - by repeat constructor.
Defined.

(** X12 at the only deployment of a request, reported done. *)
Lemma last_deployment_answers_200_witness :
  on_callback (H := Demo.lucky) Demo.config Demo.project Demo.matchedA Demo.polling
    (deploy_event 0 (got VNull (Demo.done_with Demo.deployedA)))
  = (Demo.matchedA,
     {| at_stage := Deploying (<[0 := Resolved Demo.deployedA]>
                                 [Pending (AwaitOperation 0 Demo.operation1)]);
        ended := Succeeded;
        res := [Response (VNum 200)
                  (VArr [VObj [("name", VStr "fnA");
                               ("deployment", Deployment.to_value Demo.functionA)]])] |}, [])
  ∧ ∀ j r, [Demo.deployedA] !! j = Some r
           ↔ <[0 := Resolved Demo.deployedA]>
               [Pending (AwaitOperation 0 Demo.operation1)] !! j = Some (Resolved r).
Proof.
  apply (last_deployment_answers_200 (H := Demo.lucky) Demo.config Demo.project
           Demo.matchedA Demo.polling [Pending (AwaitOperation 0 Demo.operation1)] 0 0
           Demo.operation1 VNull (Demo.done_with Demo.deployedA) Demo.deployedA
           [Demo.deployedA]
           [VObj [("name", VStr "fnA"); ("deployment", Deployment.to_value Demo.functionA)]]);
    reflexivity.
Defined.

(** X13 at two archives and two current deployments. *)
Lemma deployments_ask_or_reuse_witness :
  (deployFunctions Demo.config Demo.project Demo.matchedAB 0 ["/tmp/a.zip"; "/tmp/b.zip"]).2
    = None
  ∧ length (deployFunctions Demo.config Demo.project Demo.matchedAB 0
              ["/tmp/a.zip"; "/tmp/b.zip"]).1.1
    = length ["/tmp/a.zip"; "/tmp/b.zip"]
  ∧ (client Demo.matchedAB = None →
     (deployFunctions Demo.config Demo.project Demo.matchedAB 0
        ["/tmp/a.zip"; "/tmp/b.zip"]).1.2
     = replicate (length ["/tmp/a.zip"; "/tmp/b.zip"]) getApplicationDefault)
  ∧ (∀ gcf, client Demo.matchedAB = Some gcf →
     length (deployFunctions Demo.config Demo.project Demo.matchedAB 0
               ["/tmp/a.zip"; "/tmp/b.zip"]).1.2
     = length ["/tmp/a.zip"; "/tmp/b.zip"]
     ∧ Forall (λ c, ∃ resource, c = functions_create gcf resource
                                      (deployFunction_location Demo.config Demo.project))
              (deployFunctions Demo.config Demo.project Demo.matchedAB 0
                 ["/tmp/a.zip"; "/tmp/b.zip"]).1.2).
Proof.
  apply (deployments_ask_or_reuse Demo.config Demo.project Demo.matchedAB
           ["/tmp/a.zip"; "/tmp/b.zip"]).
  cbn. lia.
Defined.

(** X14 at one archive and no current deployment. *)
Lemma too_few_current_deployments_witness :
  ∃ slots calls message,
    then_deploy Demo.config Demo.project (boot ∅) Demo.downloading ["/tmp/a.zip"]
    = ({| at_stage := Deploying slots; ended := Caught (TypeError message);
          res := [Response (VNum 500) (VStr message)] |}, calls)
    ∧ length slots = length (currentDeployments (boot ∅)).
Proof.
  apply (too_few_current_deployments Demo.config Demo.project (boot ∅) Demo.downloading
           ["/tmp/a.zip"]); [reflexivity|reflexivity|].
  cbn. lia.
Defined.

(** X18 at a process that has a client when a push arrives. *)
Lemma client_once_set_stays_set_witness :
  is_Some (client (process
    (run (H := Demo.lucky) Demo.config Demo.project
       {| process := set_client 0 (boot ∅); requests := []; trace := [] |}
       [Incoming Demo.push; Callback 0 (downloaded VNull)]))).
Proof.
  apply (client_once_set_stays_set (H := Demo.lucky) Demo.config Demo.project
           {| process := set_client 0 (boot ∅); requests := []; trace := [] |}
           [Incoming Demo.push; Callback 0 (downloaded VNull)]).
  by eexists.
Defined.

(** X19 at the request whose second create failed, when the poll of the first
    deployment then reports success. *)
Lemma response_is_final_witness :
  ∃ q', requests
          (run (H := Demo.lucky) Demo.config Demo.project (start ∅)
             (Demo.second_create_fails ++
              [Callback 0 (deploy_event 0 (got VNull (Demo.done_with Demo.deployedA)))]))
          !! 0 = Some q'
        ∧ res q' = res Demo.after_second_create_fails.
Proof.
  apply (response_is_final (H := Demo.lucky) Demo.config Demo.project ∅
           Demo.second_create_fails
           [Callback 0 (deploy_event 0 (got VNull (Demo.done_with Demo.deployedA)))]
           0 Demo.after_second_create_fails).
  - vm_compute. reflexivity.
  - discriminate.
Defined.

(** X21 at the first archive of the demo platform. *)
Lemma archive_url_names_the_archive_witness :
  path_base (zipDir_archive (H := Demo.lucky) 0)
    = randomstring_generate (Platform := Demo.lucky) 0 13 ++ ".zip"
  ∧ sourceArchiveUrl (deployFunction_resource Demo.config Demo.project
                        (zipDir_archive (H := Demo.lucky) 0) "fnA")
    = "gs://" ++ Config.stageBucket Demo.config ++ "/"
      ++ randomstring_generate (Platform := Demo.lucky) 0 13 ++ ".zip".
Proof.
  apply (archive_url_names_the_archive (H := Demo.lucky) Demo.config Demo.project 0 "fnA").
  by repeat constructor.
Defined.

(** X23 at a request one of whose archives has failed, when the other archive
    is finished. *)
Lemma ended_chain_starts_no_later_stage_witness :
  (∀ slots, at_stage Demo.zip_failed = Zipping slots →
     (on_callback (H := Demo.lucky) Demo.config Demo.project (boot ∅) Demo.zip_failed
        (zipped 1 VNull)).2 = []
     ∧ ∃ slots',
         at_stage (on_callback (H := Demo.lucky) Demo.config Demo.project (boot ∅)
                     Demo.zip_failed (zipped 1 VNull)).1.2 = Zipping slots'
         ∧ length slots' = length slots)
  ∧ (∀ slots, at_stage Demo.zip_failed = Uploading slots →
     (on_callback (H := Demo.lucky) Demo.config Demo.project (boot ∅) Demo.zip_failed
        (zipped 1 VNull)).2 = []
     ∧ ∃ slots',
         at_stage (on_callback (H := Demo.lucky) Demo.config Demo.project (boot ∅)
                     Demo.zip_failed (zipped 1 VNull)).1.2 = Uploading slots'
         ∧ length slots' = length slots).
Proof.
  apply (ended_chain_starts_no_later_stage (H := Demo.lucky) Demo.config Demo.project
           (boot ∅) Demo.zip_failed (zipped 1 VNull)).
  discriminate.
Defined.

(** X24 at the request whose second create failed, when the poll of the first
    deployment reports success. *)
Lemma abandoned_deployment_keeps_running_witness :
  on_callback (H := Demo.lucky) Demo.config Demo.project Demo.matchedAB
    Demo.after_second_create_fails
    (deploy_event 0 (got VNull Demo.operation1))
  = (Demo.matchedAB,
     {| at_stage := Deploying (<[0 := Pending (AwaitTimeout 0 Demo.operation1)]>
                                 [Pending (AwaitOperation 0 Demo.operation1);
                                  Failed Demo.quota_exceeded]);
        ended := ended Demo.after_second_create_fails;
        res := res Demo.after_second_create_fails |},
     [setTimeout 500]).
Proof.
  apply (abandoned_deployment_keeps_running (H := Demo.lucky) Demo.config Demo.project
           Demo.matchedAB Demo.matchedAB Demo.after_second_create_fails
           [Pending (AwaitOperation 0 Demo.operation1); Failed Demo.quota_exceeded] 0
           (AwaitOperation 0 Demo.operation1) (got VNull Demo.operation1)
           (Pending (AwaitTimeout 0 Demo.operation1)) [setTimeout 500]);
    [discriminate|reflexivity..].
Defined.

(** X25 at a clone that finishes while two deployments are current. *)
Lemma archives_follow_current_deployments_witness :
  length (on_callback (H := Demo.lucky) Demo.config Demo.project Demo.matchedAB
            Demo.downloading (downloaded VNull)).2
    = length (currentDeployments Demo.matchedAB)
  ∧ random_calls (on_callback (H := Demo.lucky) Demo.config Demo.project Demo.matchedAB
                    Demo.downloading (downloaded VNull)).1.1
    = random_calls Demo.matchedAB + length (currentDeployments Demo.matchedAB)
  ∧ ∀ i d, currentDeployments Demo.matchedAB !! i = Some d →
      (on_callback (H := Demo.lucky) Demo.config Demo.project Demo.matchedAB
         Demo.downloading (downloaded VNull)).2 !! i
      = Some (zipFolder (path_join (Platform := Demo.lucky) "/tmp/site" (Deployment.path d))
                        (zipDir_archive (H := Demo.lucky) (random_calls Demo.matchedAB + i))).
Proof.
  apply (archives_follow_current_deployments (H := Demo.lucky) Demo.config Demo.project
           Demo.matchedAB Demo.downloading "/tmp/site" VNull);
    [reflexivity|reflexivity|discriminate].
Defined.

(** X28 at a second archive that cannot be written. *)
Lemma archive_or_upload_failure_answers_witness :
  on_callback (H := Demo.lucky) Demo.config Demo.project (boot ∅) Demo.zipping
    (zipped 1 (VObj (Demo.failure "disk full")))
  = (boot ∅,
     {| at_stage := Zipping [Resolved "/tmp/a.zip"; Failed (VObj (Demo.failure "disk full"))];
        ended := Caught (VObj (Demo.failure "disk full"));
        res := [error_response (VObj (Demo.failure "disk full"))] |}, []).
Proof.
  apply (proj1 (archive_or_upload_failure_answers (H := Demo.lucky) Demo.config Demo.project
                  (boot ∅) Demo.zipping 1 (VObj (Demo.failure "disk full"))
                  eq_refl eq_refl)
           [Resolved "/tmp/a.zip"; Pending "/tmp/b.zip"] "/tmp/b.zip");
    reflexivity.
Defined.

(** An upload that is rejected with an error, and one that is rejected with
    [undefined]. *)
Example upload_rejections :
  on_callback (H := Demo.lucky) Demo.config Demo.project (boot ∅) Demo.uploading
    (uploaded 0 (Some Demo.quota_exceeded))
  = (boot ∅,
     {| at_stage := Uploading [Failed Demo.quota_exceeded; Pending "/tmp/b.zip"];
        ended := Caught Demo.quota_exceeded;
        res := [Response (VNum 429) (VStr "Quota exceeded")] |}, [])
  ∧ on_callback (H := Demo.lucky) Demo.config Demo.project (boot ∅) Demo.uploading
      (uploaded 0 (Some VUndefined))
    = (boot ∅,
       {| at_stage := Uploading [Failed VUndefined; Pending "/tmp/b.zip"];
          ended := Caught VUndefined; res := [] |},
       [uncaught (TypeError "Cannot read property 'stack' of undefined")]).
Proof. split; reflexivity. Qed.

(** X29 at a create that fails with an error that has a status code. *)
Lemma deployment_failure_answers_witness :
  on_callback (H := Demo.lucky) Demo.config Demo.project Demo.matchedA Demo.creating
    (deploy_event 0 (created Demo.quota_exceeded VUndefined))
  = (Demo.matchedA,
     {| at_stage := Deploying [Failed Demo.quota_exceeded];
        ended := Caught Demo.quota_exceeded;
        res := [error_response Demo.quota_exceeded] |}, []).
Proof.
  apply (deployment_failure_answers (H := Demo.lucky) Demo.config Demo.project
           Demo.matchedA Demo.matchedA Demo.creating
           [Pending (AwaitCreate 0 Demo.resourceA)] 0 (AwaitCreate 0 Demo.resourceA)
           (created Demo.quota_exceeded VUndefined) Demo.quota_exceeded []);
    reflexivity.
Defined.

(** X30 at an error that has a status code. *)
Lemma deploy_step_rejects_on_error_witness :
  deploy_step (H := Demo.lucky) Demo.config Demo.project (boot ∅)
    (AwaitOperation 0 Demo.operation1) (got Demo.quota_exceeded VUndefined)
  = Some (boot ∅, Failed Demo.quota_exceeded, []).
Proof.
  apply (proj2 (proj2 (proj2
           (deploy_step_rejects_on_error (H := Demo.lucky) Demo.config Demo.project
              (boot ∅) Demo.quota_exceeded eq_refl)))).
Defined.
